(** * vibe-plow-nyc: the tile-transforming proxy of [server.js]

    A shallow embedding of the tile pipeline of [server.js]: the two palette
    tables, the pixel transformers [remapPixels] and [filterDesigPixels], the
    tile cache ([getCachedTile], [setCachedTile]) and the parts of the request
    handler that parse the [hide] parameter, build the upstream URL and the
    cache key, and recover from a failed transform; then the same handler in
    the earlier revision that the source also holds, and the token that the
    static-file branch writes into HTML.

    Conventions.
    - A raw RGBA buffer (a Node [Buffer], i.e. a [Uint8Array]) is a [list Z];
      a read past the end yields [None] (JavaScript's [undefined]); a store
      converts with [ToUint8] and is dropped when the index is out of range.
    - JavaScript Numbers that are integers by construction (channel values,
      squared distances, palette indices, timestamps) are [Z]; the blend
      factor and the interpolated channel are IEEE-754 binary64 values, for
      which the kernel's primitive [float] is used.
    - The module-level [tileCache] is threaded through explicitly, and
      [Date.now()] is an argument [now] of the functions that read the clock.
    - JavaScript strings are held as the bytes of their UTF-8 encoding.
    - The URL parser's pathname, UTF-8 decoding and the image codec [sharp]
      are parameters of the handler.

    Part I is the program, Part II the vocabulary of the statements, Parts
    III to V the proofs of the specification's claims, Part VI further
    properties read off the code, Part VII a few evaluations of the model. *)

From Stdlib Require Import String Ascii DecimalString DecimalNat DecimalFacts ZArith List Bool Lia Floats Uint63.
Import ListNotations.
Open Scope Z_scope.

(** * Part I: the program *)

(** ** JavaScript numbers *)

Module JS.

(** The Number with the integer value [z] (exact for [|z| < 2^53]). *)
Definition toF (z : Z) : float :=
  match z with
  | Z0 => 0%float
  | Zpos p => PrimFloat.of_uint63 (Uint63.of_pos p)
  | Zneg p => PrimFloat.opp (PrimFloat.of_uint63 (Uint63.of_pos p))
  end.

(** [ToNumber] of a typed-array read: [undefined] becomes [NaN]. *)
Definition num (v : option Z) : float :=
  match v with
  | Some z => toF z
  | None => PrimFloat.nan
  end.

(** [Math.max(x, y)]: [NaN] when an argument is [NaN]; [+0] is larger
    than [-0]. *)
Definition Math_max (x y : float) : float :=
  if PrimFloat.is_nan x || PrimFloat.is_nan y then PrimFloat.nan
  else if (x <? y)%float then y
  else if (y <? x)%float then x
  else if PrimFloat.get_sign x then y else x.

(** [floor (v * 2^e + 1/2)], computed on integers. *)
Definition round_half_up (v e : Z) : Z :=
  if 0 <=? e then v * 2 ^ e
  else (2 * v + 2 ^ (- e)) / 2 ^ (1 - e).

(** [Math.round(x)]: the integer nearest to [x], a tie going towards
    [+Infinity]; [None] stands for the results [NaN] and [±Infinity]
    (of a [NaN] or infinite argument). *)
Definition Math_round (x : float) : option Z :=
  match Prim2SF x with
  | S754_zero _ => Some 0
  | S754_finite s m e => Some (round_half_up (if s then Zneg m else Zpos m) e)
  | S754_infinity _ => None
  | S754_nan => None
  end.

(** [ToUint8], the conversion of a store into a [Uint8Array]. *)
Definition ToUint8 (v : option Z) : Z :=
  match v with
  | Some n => n mod 256
  | None => 0
  end.

(** [SameValueZero], the equality of [Set.prototype.has]. *)
Definition SameValueZero (x y : float) : bool :=
  (x =? y)%float || (PrimFloat.is_nan x && PrimFloat.is_nan y).

End JS.

(** ** Typed-array buffers *)

Definition bytes := list Z.

Definition is_byte (z : Z) : Prop := 0 <= z <= 255.

(** [data[i]]. *)
Definition rd (data : bytes) (i : nat) : option Z := nth_error data i.

Fixpoint upd (data : bytes) (i : nat) (v : Z) : bytes :=
  match data, i with
  | [], _ => []
  | _ :: rest, O => v :: rest
  | x :: rest, S i' => x :: upd rest i' v
  end.

(** [data[i] = v] for a Number [v] that is an integer ([None]: not finite). *)
Definition store (data : bytes) (i : nat) (v : option Z) : bytes :=
  upd data i (JS.ToUint8 v).

(** ** Palettes *)

Record rgb := RGB { red : Z; green : Z; blue : Z }.

Record mapping := Mapping { src : rgb; dst : rgb }.

Definition COLOR_MAP : list mapping :=
  [ Mapping (RGB 0x00 0x80 0x00) (RGB 0x34 0xa8 0x53);
    Mapping (RGB 0x00 0x00 0xff) (RGB 0x42 0x85 0xf4);
    Mapping (RGB 0xff 0xff 0x00) (RGB 0xfb 0xbc 0x04);
    Mapping (RGB 0xff 0xa5 0x00) (RGB 0xe8 0x71 0x0a);
    Mapping (RGB 0x8a 0x2b 0xe2) (RGB 0x9c 0x6a 0xde);
    Mapping (RGB 0x3a 0xe5 0xee) (RGB 0x4e 0xb8 0xc4);
    Mapping (RGB 0x4b 0x3b 0x30) (RGB 0x8a 0x7b 0x6e) ].

Definition DESIG_COLORS : list rgb :=
  [ RGB 0xbf 0x40 0x2e;
    RGB 0x11 0x41 0xaf;
    RGB 0xa0 0xcc 0x17;
    RGB 0xff 0xc2 0x1e ].

Definition THRESHOLD : Z := 12000.

(** ** Nearest-colour search (the inner [j] loop of both transformers) *)

(** [bestDist]: [Infinity] or an integer. *)
Inductive dist := Infinity | Fin (d : Z).

(** [dr * dr + dg * dg + db * db]; [None] is [NaN] (an [undefined] channel). *)
Definition sqdist (r g b : option Z) (s : rgb) : option Z :=
  match r, g, b with
  | Some r, Some g, Some b =>
      let dr := r - red s in
      let dg := g - green s in
      let db := b - blue s in
      Some (dr * dr + dg * dg + db * db)
  | _, _, _ => None
  end.

(** [dist < bestDist]. *)
Definition closer (d : option Z) (best : dist) : bool :=
  match d, best with
  | None, _ => false
  | Some _, Infinity => true
  | Some d, Fin b => d <? b
  end.

Fixpoint nearest_from (j : Z) (pal : list rgb) (r g b : option Z)
    (best : Z * dist) : Z * dist :=
  match pal with
  | [] => best
  | s :: pal' =>
      let d := sqdist r g b s in
      nearest_from (j + 1) pal' r g b
        (if closer d (snd best)
         then (j, match d with Some d => Fin d | None => Infinity end)
         else best)
  end.

(** [(bestIdx, bestDist)] after the loop, from [bestIdx = -1],
    [bestDist = Infinity]. *)
Definition nearest (pal : list rgb) (r g b : option Z) : Z * dist :=
  nearest_from 0 pal r g b (-1, Infinity).

(** [bestDist < 12000]. *)
Definition below_threshold (best : dist) : bool :=
  match best with
  | Infinity => false
  | Fin d => d <? THRESHOLD
  end.

(** [bestDist === 0]. *)
Definition is_zero_dist (best : dist) : bool :=
  match best with
  | Infinity => false
  | Fin d => d =? 0
  end.

(** ** Hide sets *)

(** A [Set] of Numbers, as the list of its elements in insertion order. *)
Definition HideSet := list float.

Definition has (hs : HideSet) (idx : Z) : bool :=
  existsb (JS.SameValueZero (JS.toF idx)) hs.

(** [hideSet && hideSet.has(bestIdx)] with [hideSet] possibly [null]. *)
Definition hidden (hideSet : option HideSet) (idx : Z) : bool :=
  match hideSet with
  | None => false
  | Some hs => has hs idx
  end.

(** ** [remapPixels] *)

(** [Math.max(0, 1 - Math.sqrt(bestDist) / 110)]. *)
Definition blend_t (best : dist) : float :=
  let bd := match best with Fin d => JS.toF d | Infinity => PrimFloat.infinity end in
  JS.Math_max 0 (1 - PrimFloat.sqrt bd / 110)%float.

(** [Math.round(c + (d - s) * t)]. *)
Definition blend (c : option Z) (d s : Z) (t : float) : option Z :=
  JS.Math_round (JS.num c + JS.toF (d - s) * t)%float.

Definition dummy_mapping : mapping := Mapping (RGB 0 0 0) (RGB 0 0 0).

(** [COLOR_MAP[bestIdx]]; the search never leaves [bestIdx] at [-1] with a
    finite distance (lemma [nearest_index_range]), so the default is
    never read. *)
Definition entry (idx : Z) : mapping := nth (Z.to_nat idx) COLOR_MAP dummy_mapping.

(** The body of the [for] loop of [remapPixels] at offset [i]. *)
Definition remap_step (hideSet : option HideSet) (i : nat) (data : bytes) : bytes :=
  let a := rd data (i + 3) in
  match a with
  | Some 0 => data
  | _ =>
      let r := rd data i in
      let g := rd data (i + 1) in
      let b := rd data (i + 2) in
      let '(bestIdx, bestDist) := nearest (map src COLOR_MAP) r g b in
      if below_threshold bestDist then
        if hidden hideSet bestIdx then store data (i + 3) (Some 0)
        else
          let d := dst (entry bestIdx) in
          let s := src (entry bestIdx) in
          if is_zero_dist bestDist then
            let data := store data i (Some (red d)) in
            let data := store data (i + 1) (Some (green d)) in
            store data (i + 2) (Some (blue d))
          else
            let t := blend_t bestDist in
            let data := store data i (blend r (red d) (red s) t) in
            let data := store data (i + 1) (blend g (green d) (green s) t) in
            store data (i + 2) (blend b (blue d) (blue s) t)
      else data
  end.

(** [for (let i = 0; i < len; i += 4) body]: [n] iterations from offset [i]. *)
Fixpoint pixel_loop (step : nat -> bytes -> bytes) (n i : nat) (data : bytes) : bytes :=
  match n with
  | O => data
  | S n' => pixel_loop step n' (i + 4) (step i data)
  end.

(** The number of offsets [0, 4, 8, ...] below [len]. *)
Definition iterations (len : nat) : nat := Nat.div (len + 3) 4.

Definition remapPixels (data : bytes) (hideSet : option HideSet) : bytes :=
  pixel_loop (remap_step hideSet) (iterations (length data)) 0 data.

(** ** [filterDesigPixels] *)

(** The loop body of [filterDesigPixels]; [hideSet] is a [Set] (the handler
    calls it only under [hideSet && hideSet.size > 0]). *)
Definition filter_step (hideSet : HideSet) (i : nat) (data : bytes) : bytes :=
  match rd data (i + 3) with
  | Some 0 => data
  | _ =>
      let r := rd data i in
      let g := rd data (i + 1) in
      let b := rd data (i + 2) in
      let '(bestIdx, bestDist) := nearest DESIG_COLORS r g b in
      if below_threshold bestDist && has hideSet bestIdx
      then store data (i + 3) (Some 0)
      else data
  end.

Definition filterDesigPixels (data : bytes) (hideSet : HideSet) : bytes :=
  pixel_loop (filter_step hideSet) (iterations (length data)) 0 data.

(** ** The tile cache *)

Definition TILE_CACHE_MAX : nat := 2000.

Definition TILE_CACHE_TTL : Z := 5 * 60000.

(** [{ buffer, timestamp }]. *)
Record cache_entry := CacheEntry { buffer : bytes; timestamp : Z }.

(** A JavaScript [Map] from strings: its entries in insertion order. *)
Definition Map := list (string * cache_entry).

Definition keys (m : Map) : list string := map fst m.

(** [m.get(key)]. *)
Fixpoint map_get (key : string) (m : Map) : option cache_entry :=
  match m with
  | [] => None
  | (k, v) :: rest => if String.eqb k key then Some v else map_get key rest
  end.

(** [m.delete(key)]. *)
Definition map_delete (key : string) (m : Map) : Map :=
  filter (fun kv => negb (String.eqb (fst kv) key)) m.

(** [m.set(key, v)]: a key already present keeps its place in the order;
    a new key goes to the end. *)
Fixpoint map_set (key : string) (v : cache_entry) (m : Map) : Map :=
  match m with
  | [] => [(key, v)]
  | (k, x) :: rest =>
      if String.eqb k key then (k, v) :: rest else (k, x) :: map_set key v rest
  end.

(** [m.keys().next().value]. *)
Definition map_first_key (m : Map) : option string :=
  match m with
  | [] => None
  | (k, _) :: _ => Some k
  end.

(** [getCachedTile(key)] at time [now = Date.now()], on the cache
    [tileCache]; returns the result and the cache afterwards. *)
Definition getCachedTile (now : Z) (key : string) (tileCache : Map)
    : option bytes * Map :=
  match map_get key tileCache with
  | None => (None, tileCache)
  | Some entry =>
      if now - timestamp entry >? TILE_CACHE_TTL
      then (None, map_delete key tileCache)
      else (Some (buffer entry), map_set key entry (map_delete key tileCache))
  end.

(** [setCachedTile(key, buffer)] at time [now = Date.now()]. *)
Definition setCachedTile (now : Z) (key : string) (buf : bytes) (tileCache : Map)
    : Map :=
  let tileCache :=
    if (TILE_CACHE_MAX <=? length tileCache)%nat then
      match map_first_key tileCache with
      | Some oldest => map_delete oldest tileCache
      | None => tileCache
      end
    else tileCache in
  map_set key (CacheEntry buf now) tileCache.

(** ** Strings *)

(** JavaScript strings are held as the bytes of their UTF-8 encoding. *)

Open Scope string_scope.
Open Scope Z_scope.

Module Str.

Fixpoint starts_with (p s : string) : option string :=
  match p, s with
  | EmptyString, _ => Some s
  | String a p', String b s' => if Ascii.eqb a b then starts_with p' s' else None
  | String _ _, EmptyString => None
  end.

(** [s.includes(needle)]. *)
Fixpoint includes (needle s : string) : bool :=
  match starts_with needle s with
  | Some _ => true
  | None => match s with
            | EmptyString => false
            | String _ s' => includes needle s'
            end
  end.

Fixpoint rev_onto (s acc : string) : string :=
  match s with
  | EmptyString => acc
  | String c s' => rev_onto s' (String c acc)
  end.

Definition rev (s : string) : string := rev_onto s EmptyString.

(** The part of [s] before the first [c], and the part after it when there
    is one. *)
Fixpoint split_first (c : ascii) (s : string) : string * option string :=
  match s with
  | EmptyString => (EmptyString, None)
  | String a s' =>
      if Ascii.eqb a c then (EmptyString, Some s')
      else let '(x, y) := split_first c s' in (String a x, y)
  end.

(** [s.split(c)] for a one-character separator. *)
Fixpoint split (c : ascii) (s : string) : list string :=
  match s with
  | EmptyString => [EmptyString]
  | String a s' =>
      if Ascii.eqb a c then EmptyString :: split c s'
      else match split c s' with
           | x :: rest => String a x :: rest
           | [] => [String a EmptyString]
           end
  end.

Fixpoint join (sep : string) (l : list string) : string :=
  match l with
  | [] => EmptyString
  | [x] => x
  | x :: rest => x ++ sep ++ join sep rest
  end.

Definition is_empty (s : string) : bool :=
  match s with
  | EmptyString => true
  | String _ _ => false
  end.

End Str.

(** ** [Number] applied to a string, and the [hide] parameter *)

Module Num.

(** The white space and line terminators that [StringToNumber] trims: TAB,
    LF, VT, FF, CR, SP, and in UTF-8 U+00A0, U+1680, U+2000 to U+200A, U+2028,
    U+2029, U+202F, U+205F, U+3000 and U+FEFF. *)

Definition b (n : nat) : ascii := ascii_of_nat n.

Definition s2 (x y : nat) : string := String (b x) (String (b y) EmptyString).

Definition s3 (x y z : nat) : string := String (b x) (s2 y z).

Definition white_space : list string :=
  (map (fun n => String (b n) EmptyString) [9; 10; 11; 12; 13; 32]%nat
   ++ [s2 194 160; s3 225 154 128]
   ++ map (fun n => s3 226 128 n) (seq 128 11)
   ++ [s3 226 128 168; s3 226 128 169; s3 226 128 175; s3 226 129 159;
       s3 227 128 128; s3 239 187 191])%list.

(** [s] without one leading white-space character, when it has one. *)
Fixpoint strip_one (ws : list string) (s : string) : option string :=
  match ws with
  | [] => None
  | w :: ws' => match Str.starts_with w s with
                | Some rest => Some rest
                | None => strip_one ws' s
                end
  end.

Fixpoint trim_start (fuel : nat) (ws : list string) (s : string) : string :=
  match fuel with
  | O => s
  | S fuel' => match strip_one ws s with
               | Some rest => trim_start fuel' ws rest
               | None => s
               end
  end.

Definition trim (s : string) : string :=
  let s1 := trim_start (String.length s) white_space s in
  Str.rev (trim_start (String.length s1) (map Str.rev white_space) (Str.rev s1)).

Definition digit_of (base : Z) (c : ascii) : option Z :=
  let n := Z.of_nat (nat_of_ascii c) in
  let v := if (48 <=? n) && (n <=? 57) then n - 48
           else if (97 <=? n) && (n <=? 102) then n - 87
           else if (65 <=? n) && (n <=? 70) then n - 55
           else 99 in
  if v <? base then Some v else None.

(** The longest prefix of digits: its value on top of [acc], the number of
    digits on top of [n], and the rest. *)
Fixpoint take_digits (base : Z) (s : string) (acc n : Z) : Z * Z * string :=
  match s with
  | EmptyString => (acc, n, s)
  | String c s' =>
      match digit_of base c with
      | Some d => take_digits base s' (base * acc + d) (n + 1)
      | None => (acc, n, s)
      end
  end.

(** [ExponentPart], optional, up to the end of the string. *)
Definition parse_exponent (s : string) : option Z :=
  match s with
  | EmptyString => Some 0
  | String c s' =>
      if Ascii.eqb c "e" || Ascii.eqb c "E" then
        let '(neg, s'') :=
          match s' with
          | String "+" t => (false, t)
          | String "-" t => (true, t)
          | _ => (false, s')
          end in
        let '(v, n, rest) := take_digits 10 s'' 0 0 in
        if (0 <? n) && Str.is_empty rest then Some (if neg then - v else v)
        else None
      else None
  end.

(** [StrUnsignedDecimalLiteral] other than [Infinity]: the digits as an
    integer [m], their number, and the decimal exponent [e], for the value
    [m * 10^e]. *)
Definition parse_decimal (s : string) : option (Z * Z * Z) :=
  let '(i, ni, rest) := take_digits 10 s 0 0 in
  match rest with
  | String "." rest' =>
      let '(m, nf, rest'') := take_digits 10 rest' i 0 in
      if (0 <? ni) || (0 <? nf)
      then option_map (fun e => (m, ni + nf, e - nf)) (parse_exponent rest'')
      else None
  | _ =>
      if 0 <? ni
      then option_map (fun e => (i, ni, e)) (parse_exponent rest)
      else None
  end.

(** [NonDecimalIntegerLiteral]: [0x], [0o] or [0b] and at least one digit. *)
Definition parse_radix (s : string) : option Z :=
  match s with
  | String "0" (String c rest) =>
      let base :=
        if Ascii.eqb c "x" || Ascii.eqb c "X" then 16
        else if Ascii.eqb c "o" || Ascii.eqb c "O" then 8
        else if Ascii.eqb c "b" || Ascii.eqb c "B" then 2
        else 0 in
      if base =? 0 then None
      else
        let '(v, n, rest') := take_digits base rest 0 0 in
        if (0 <? n) && Str.is_empty rest' then Some v else None
  | _ => None
  end.

(** The Number nearest to the integer [n] (ties to even). *)
Definition of_integer (n : Z) : float :=
  SF2Prim (binary_normalize prec emax n 0 false).

(** The Number nearest to [m * 10^e] for [0 <= m < 10^nd], negated when
    [neg]. Beyond [10^310] the result is infinite and below [10^-330] it is
    zero, so the powers of ten that are computed stay small. *)
Definition of_decimal (neg : bool) (m nd e : Z) : float :=
  let sign (x : float) := if neg then PrimFloat.opp x else x in
  if m =? 0 then sign 0%float
  else if 310 <? e then sign PrimFloat.infinity
  else if nd + e <? - 330 then sign 0%float
  else if 0 <=? e then sign (of_integer (m * 10 ^ e))
  else
    sign (SF2Prim (SF64div (S754_finite false (Z.to_pos m) 0)
                           (S754_finite false (Z.to_pos (10 ^ (- e))) 0))).

(** [StrDecimalLiteral] or [NonDecimalIntegerLiteral], after trimming. *)
Definition parse_numeric (s : string) : float :=
  match parse_radix s with
  | Some v => of_integer v
  | None =>
      let '(neg, u) :=
        match s with
        | String "+" t => (false, t)
        | String "-" t => (true, t)
        | _ => (false, s)
        end in
      if String.eqb u "Infinity"
      then (if neg then PrimFloat.neg_infinity else PrimFloat.infinity)
      else match parse_decimal u with
           | Some (m, nd, e) => of_decimal neg m nd e
           | None => PrimFloat.nan
           end
  end.

(** [Number(s)] for a string [s]. *)
Definition Number (s : string) : float :=
  let t := trim s in
  if Str.is_empty t then 0%float else parse_numeric t.

End Num.

(** [new Set(array)]: the distinct elements, in the order of their first
    occurrence. *)
Definition Set_add (acc : HideSet) (x : float) : HideSet :=
  if existsb (JS.SameValueZero x) acc then acc else (acc ++ [x])%list.

Definition Set_of (l : list float) : HideSet := fold_left Set_add l [].

(** [hideStr ? new Set(hideStr.split(',').map(Number)) : null]. *)
Definition parse_hide (hideStr : string) : option HideSet :=
  if Str.is_empty hideStr then None
  else Some (Set_of (map Num.Number (Str.split "," hideStr))).

(** ** The request handler *)

Module Url.

Definition hex_val (c : ascii) : option nat :=
  match Num.digit_of 16 c with
  | Some v => Some (Z.to_nat v)
  | None => None
  end.

(** Percent-decoding of a byte sequence. *)
Fixpoint percent_decode (s : string) : string :=
  match s with
  | EmptyString => EmptyString
  | String c tl =>
      if negb (Ascii.eqb c "%") then String c (percent_decode tl)
      else
        match tl with
        | String h (String l rest) =>
            match hex_val h, hex_val l with
            | Some x, Some y =>
                String (ascii_of_nat (16 * x + y)) (percent_decode rest)
            | _, _ => String c (percent_decode tl)
            end
        | _ => String c (percent_decode tl)
        end
  end.

Fixpoint plus_to_space (s : string) : string :=
  match s with
  | EmptyString => EmptyString
  | String c tl => String (if Ascii.eqb c "+" then " "%char else c) (plus_to_space tl)
  end.

Definition hex_digit (n : nat) : ascii :=
  ascii_of_nat (if (n <? 10)%nat then 48 + n else 55 + n).

(** Bytes that the [application/x-www-form-urlencoded] serializer leaves as
    they are: ASCII letters and digits, [*], [-], [.] and [_]. *)
Definition unreserved (c : ascii) : bool :=
  let n := nat_of_ascii c in
  ((48 <=? n) && (n <=? 57) || (65 <=? n) && (n <=? 90)
   || (97 <=? n) && (n <=? 122)
   || (n =? 42) || (n =? 45) || (n =? 46) || (n =? 95))%nat.

Fixpoint byte_serialize (s : string) : string :=
  match s with
  | EmptyString => EmptyString
  | String c tl =>
      if unreserved c then String c (byte_serialize tl)
      else if Ascii.eqb c " " then String "+" (byte_serialize tl)
      else
        let n := nat_of_ascii c in
        String "%" (String (hex_digit (n / 16))
                           (String (hex_digit (n mod 16)) (byte_serialize tl)))
  end.

End Url.

Section Handler.

(** Three library functions are parameters of the handler.

    [pathname_of] is the URL parser's path: the serialized pathname of a raw
    path (dot segments removed, characters percent-encoded). It never contains
    a [?] or a [#].

    [utf8] is UTF-8 decoding followed by re-encoding: the identity on
    well-formed UTF-8, and a U+FFFD for each ill-formed sequence.

    [decode] and [encode] stand for [sharp]: decoding an encoded image to its
    width, height and raw RGBA bytes, and encoding raw RGBA bytes as PNG;
    [None] when the call rejects. *)

Variable pathname_of : string -> string.

Variable utf8 : string -> string.

Variable decode : bytes -> option (Z * Z * bytes).

Variable encode : Z -> Z -> bytes -> option bytes.

(** ** [new URL(req.url, 'http://localhost')] for a path-absolute [req.url]

    The request target [req.url] is an ASCII string that starts with [/api/]
    (an HTTP request line holds no white space or control character). The
    path ends at the first [?] or [#], the query at the first [#]. *)

(** [req.url] without its fragment. *)
Definition without_fragment (url : string) : string := fst (Str.split_first "#" url).

Definition raw_path (url : string) : string :=
  fst (Str.split_first "?" (without_fragment url)).

(** The query: [None] without a [?]. *)
Definition raw_query (url : string) : option string :=
  snd (Str.split_first "?" (without_fragment url)).

Definition decode_component (x : string) : string :=
  utf8 (Url.percent_decode (Url.plus_to_space x)).

(** One [name=value] sequence of a query. *)
Definition parse_pair (seq : string) : string * string :=
  let '(n, v) := Str.split_first "=" seq in
  (decode_component n,
   decode_component (match v with Some v => v | None => EmptyString end)).

(** The [application/x-www-form-urlencoded] parser. *)
Definition parse_query (q : string) : list (string * string) :=
  map parse_pair (filter (fun x => negb (Str.is_empty x)) (Str.split "&" q)).

(** [url.searchParams]. *)
Definition searchParams (url : string) : list (string * string) :=
  match raw_query url with
  | Some q => parse_query q
  | None => []
  end.

(** [params.get(name)]. *)
Fixpoint params_get (name : string) (l : list (string * string)) : option string :=
  match l with
  | [] => None
  | (n, v) :: rest => if String.eqb n name then Some v else params_get name rest
  end.

(** [params.delete(name)]: every pair of that name goes; the URL's query is
    then set to the serialization of what is left, whether or not a pair was
    removed. *)
Definition params_delete (name : string) (l : list (string * string))
    : list (string * string) :=
  filter (fun nv => negb (String.eqb (fst nv) name)) l.

(** The [application/x-www-form-urlencoded] serializer. *)
Definition serialize_params (l : list (string * string)) : string :=
  Str.join "&"
    (map (fun nv => Url.byte_serialize (fst nv) ++ "=" ++ Url.byte_serialize (snd nv)) l).

(** [parsed.search] after the parameters were updated to [l]. *)
Definition search_of (l : list (string * string)) : string :=
  match l with
  | [] => EmptyString
  | _ :: _ => "?" ++ serialize_params l
  end.

(** ** The request context *)

Definition API_TARGET : string := "https://plownyc.cityofnewyork.us".

Record context := Context {
  hideSet : option HideSet;
  cleanUrl : string;
  targetPath : string;
  targetUrl : string;
  isTileReq : bool;
  isPlowTile : bool;
  isDesigTile : bool
}.

(** [searchParams.get('hide') || '']. *)
Definition hideStr_of (url : string) : string :=
  match params_get "hide" (searchParams url) with
  | Some v => v
  | None => EmptyString
  end.

(** The first lines of the [/api/] branch of the request handler. *)
Definition request_context (url : string) : context :=
  let hideStr := hideStr_of url in
  let hideSet := parse_hide hideStr in
  let params := params_delete "hide" (searchParams url) in
  let cleanUrl := pathname_of (raw_path url) ++ search_of params in
  let targetPath := "/mappingapi" ++ cleanUrl in
  let targetUrl := API_TARGET ++ targetPath in
  let isTileReq :=
    Str.includes "highlight" targetPath
    && negb (Str.includes "active" targetPath)
    && negb (Str.includes "info" targetPath) in
  let isPlowTile := isTileReq && Str.includes "VISITED" targetPath in
  let isDesigTile := isTileReq && negb isPlowTile in
  Context hideSet cleanUrl targetPath targetUrl isTileReq isPlowTile isDesigTile.

(** ** Transforming a tile *)

(** [remapTile]; [None] when a [sharp] call rejects. *)
Definition remapTile (inputBuffer : bytes) (hideSet : option HideSet) : option bytes :=
  match decode inputBuffer with
  | Some (width, height, raw) => encode width height (remapPixels raw hideSet)
  | None => None
  end.

(** [filterDesigTile]. *)
Definition filterDesigTile (inputBuffer : bytes) (hideSet : HideSet) : option bytes :=
  match decode inputBuffer with
  | Some (width, height, raw) => encode width height (filterDesigPixels raw hideSet)
  | None => None
  end.

(** The body of the [try] block up to [outputBuf]. *)
Definition transform (ctx : context) (inputBuf : bytes) : option bytes :=
  if isPlowTile ctx then remapTile inputBuf (hideSet ctx)
  else
    match hideSet ctx with
    | Some hs =>
        if (0 <? length hs)%nat then filterDesigTile inputBuf hs else Some inputBuf
    | None => Some inputBuf
    end.

(** ** Responses *)

Record response := Response {
  status : Z;
  contentType : option string;
  cacheControl : option string;
  resp_body : bytes
}.

(** What [https.get] hands to its callback, with the body the [data] events
    deliver. *)
Record upstream_response := Upstream {
  statusCode : Z;
  upstream_content_type : option string;
  upstream_cache_control : option string;
  upstream_body : bytes
}.

(** [header || fallback]: an absent or empty header is falsy. *)
Definition or_default (h : option string) (fallback : string) : string :=
  match h with
  | Some v => if Str.is_empty v then fallback else v
  | None => fallback
  end.

(** A request either is answered from the cache or goes upstream. *)
Inductive probe :=
| Hit (r : response)
| Miss (upstream_url : string).

(** The cache probe of a request for [url] (which starts with [/api/]). *)
Definition on_request (url : string) (now : Z) (tileCache : Map) : probe * Map :=
  let ctx := request_context url in
  if isPlowTile ctx || isDesigTile ctx then
    match getCachedTile now (cleanUrl ctx) tileCache with
    | (Some rawCached, tileCache') =>
        match transform ctx rawCached with
        | Some outputBuf =>
            (Hit (Response 200 (Some "image/png") (Some "public, max-age=300") outputBuf),
             tileCache')
        | None => (Hit (Response 200 (Some "image/png") None rawCached), tileCache')
        end
    | (None, tileCache') => (Miss (targetUrl ctx), tileCache')
    end
  else (Miss (targetUrl ctx), tileCache).

(** The callback of [https.get] once the upstream response has ended, at
    time [now]. *)
Definition on_upstream_response (ctx : context) (proxyRes : upstream_response)
    (now : Z) (tileCache : Map) : response * Map :=
  if isTileReq ctx
     && ((statusCode proxyRes =? 204)
         || negb (Str.includes "image" (or_default (upstream_content_type proxyRes) EmptyString)))
  then (Response 404 (Some "text/plain") None [], tileCache)
  else if (isPlowTile ctx || isDesigTile ctx) && (statusCode proxyRes =? 200) then
    let inputBuf := upstream_body proxyRes in
    let tileCache := setCachedTile now (cleanUrl ctx) inputBuf tileCache in
    match transform ctx inputBuf with
    | Some outputBuf =>
        (Response 200 (Some "image/png") (Some "public, max-age=300") outputBuf, tileCache)
    | None =>
        (Response 200 (Some (or_default (upstream_content_type proxyRes) "image/png"))
                  None inputBuf,
         tileCache)
    end
  else
    (Response (statusCode proxyRes)
              (Some (or_default (upstream_content_type proxyRes) "application/octet-stream"))
              (Some (or_default (upstream_cache_control proxyRes) "no-cache"))
              (upstream_body proxyRes),
     tileCache).

End Handler.

(** ** The earlier revision of [server.js]

    The source holds a second, earlier revision of the server: [remapPixels]
    takes no hide-set, there is no designation filter, the request URL is
    forwarded and used as the cache key as it is, and the cache holds the
    processed tile. The palette and the cache functions are the same. *)

Module Earlier.

(** The body of the [for] loop of the one-argument [remapPixels]. *)
Definition remap_step (i : nat) (data : bytes) : bytes :=
  let a := rd data (i + 3) in
  match a with
  | Some 0 => data
  | _ =>
      let r := rd data i in
      let g := rd data (i + 1) in
      let b := rd data (i + 2) in
      let '(bestIdx, bestDist) := nearest (map src COLOR_MAP) r g b in
      if below_threshold bestDist then
        let d := dst (entry bestIdx) in
        let s := src (entry bestIdx) in
        if is_zero_dist bestDist then
          let data := store data i (Some (red d)) in
          let data := store data (i + 1) (Some (green d)) in
          store data (i + 2) (Some (blue d))
        else
          let t := blend_t bestDist in
          let data := store data i (blend r (red d) (red s) t) in
          let data := store data (i + 1) (blend g (green d) (green s) t) in
          store data (i + 2) (blend b (blue d) (blue s) t)
      else data
  end.

Definition remapPixels (data : bytes) : bytes :=
  pixel_loop remap_step (iterations (length data)) 0 data.

Section Handler.

Variable decode : bytes -> option (Z * Z * bytes).

Variable encode : Z -> Z -> bytes -> option bytes.

(** [remapTile(inputBuffer)]; [None] when a [sharp] call rejects. *)
Definition remapTile (inputBuffer : bytes) : option bytes :=
  match decode inputBuffer with
  | Some (width, height, raw) => encode width height (remapPixels raw)
  | None => None
  end.

Record context := Context {
  targetPath : string;
  targetUrl : string;
  isTileReq : bool;
  isPlowTile : bool
}.

(** The first lines of the [/api/] branch: the request URL is forwarded as
    it is. *)
Definition request_context (url : string) : context :=
  let targetPath := "/mappingapi" ++ url in
  let targetUrl := API_TARGET ++ targetPath in
  let isTileReq :=
    Str.includes "highlight" targetPath
    && negb (Str.includes "active" targetPath)
    && negb (Str.includes "info" targetPath) in
  let isPlowTile := isTileReq && Str.includes "VISITED" targetPath in
  Context targetPath targetUrl isTileReq isPlowTile.

(** The cache probe of a request for [url]: a cached plow tile is sent as
    it is. *)
Definition on_request (url : string) (now : Z) (tileCache : Map) : probe * Map :=
  let ctx := request_context url in
  if isPlowTile ctx then
    match getCachedTile now url tileCache with
    | (Some cached, tileCache') =>
        (Hit (Response 200 (Some "image/png") (Some "public, max-age=300") cached),
         tileCache')
    | (None, tileCache') => (Miss (targetUrl ctx), tileCache')
    end
  else (Miss (targetUrl ctx), tileCache).

(** The callback of [https.get] once the upstream response has ended. *)
Definition on_upstream_response (url : string) (proxyRes : upstream_response)
    (now : Z) (tileCache : Map) : response * Map :=
  let ctx := request_context url in
  if isTileReq ctx
     && ((statusCode proxyRes =? 204)
         || negb (Str.includes "image" (or_default (upstream_content_type proxyRes) EmptyString)))
  then (Response 404 (Some "text/plain") None [], tileCache)
  else if isPlowTile ctx && (statusCode proxyRes =? 200) then
    let inputBuf := upstream_body proxyRes in
    match remapTile inputBuf with
    | Some outputBuf =>
        (Response 200 (Some "image/png") (Some "public, max-age=300") outputBuf,
         setCachedTile now url outputBuf tileCache)
    | None =>
        (Response 200 (Some (or_default (upstream_content_type proxyRes) "image/png"))
                  (Some (or_default (upstream_cache_control proxyRes) "no-cache"))
                  inputBuf,
         tileCache)
    end
  else
    (Response (statusCode proxyRes)
              (Some (or_default (upstream_content_type proxyRes) "application/octet-stream"))
              (Some (or_default (upstream_cache_control proxyRes) "no-cache"))
              (upstream_body proxyRes),
     tileCache).

End Handler.

End Earlier.

(** ** The Mapbox token in served HTML *)

(** The parts of [s] before and after the first occurrence of [pat]. *)
Fixpoint find_first (pat s : string) : option (string * string) :=
  match Str.starts_with pat s with
  | Some rest => Some (EmptyString, rest)
  | None =>
      match s with
      | EmptyString => None
      | String c s' =>
          match find_first pat s' with
          | Some (before, after) => Some (String c before, after)
          | None => None
          end
      end
  end.

(** [GetSubstitution] for a string pattern: [$$] is a dollar sign, [$&] the
    matched text, [$`] and [$'] the text before and after the match. There
    are no captures, so every other [$] (also before a digit or a [<])
    stands for itself. The pattern and these characters are ASCII, so the
    bytes of the UTF-8 encoding are searched and copied like the string. *)
Fixpoint GetSubstitution (matched before after template : string) : string :=
  match template with
  | EmptyString => EmptyString
  | String c tl =>
      if negb (Ascii.eqb c "$") then String c (GetSubstitution matched before after tl)
      else
        match tl with
        | String x rest =>
            if Ascii.eqb x "$" then String "$" (GetSubstitution matched before after rest)
            else if Ascii.eqb x "&" then matched ++ GetSubstitution matched before after rest
            else if Ascii.eqb x "`" then before ++ GetSubstitution matched before after rest
            else if Ascii.eqb x "'" then after ++ GetSubstitution matched before after rest
            else String c (GetSubstitution matched before after tl)
        | EmptyString => String c EmptyString
        end
  end.

(** [s.replace(pat, replacement)] for strings [pat] and [replacement]. *)
Definition replace (pat replacement s : string) : string :=
  match find_first pat s with
  | None => s
  | Some (before, after) =>
      before ++ GetSubstitution pat before after replacement ++ after
  end.

(** The template literal of the injected script. *)
Definition token_script (MAPBOX_TOKEN : string) : string :=
  "<script>window.__MAPBOX_TOKEN__='" ++ MAPBOX_TOKEN ++ "';</script></head>".

(** The body sent for a file [data] that was read, of extension [ext];
    [utf8] is [data.toString()] (UTF-8 decoding, then the encoding of the
    string that [res.end] writes). *)
Definition file_body (utf8 : string -> string) (MAPBOX_TOKEN ext data : string) : string :=
  if String.eqb ext ".html" && negb (Str.is_empty MAPBOX_TOKEN)
  then replace "</head>" (token_script MAPBOX_TOKEN) (utf8 data)
  else data.

(** * Part II: vocabulary of the specification *)

(** ** Pixels and their classification *)

(** The squared distance of a defined pixel to a palette colour. *)
Definition sq (r g b : Z) (s : rgb) : Z :=
  (r - red s) * (r - red s) + (g - green s) * (g - green s)
  + (b - blue s) * (b - blue s).

(** [idx] is the first index of [pal] at minimum squared distance [d]
    from [(r, g, b)]. *)
Definition first_nearest (pal : list rgb) (r g b : Z) (idx : Z) (d : Z) : Prop :=
  exists k s,
    idx = Z.of_nat k /\ nth_error pal k = Some s /\ d = sq r g b s /\
    (forall k' s', nth_error pal k' = Some s' -> d <= sq r g b s') /\
    (forall k' s', (k' < k)%nat -> nth_error pal k' = Some s' -> d < sq r g b s').

(** Pixel [p] of [data] is complete and has the channels [r g b a]. *)
Definition pixel_at (data : bytes) (p : nat) (r g b a : Z) : Prop :=
  rd data (4 * p) = Some r /\ rd data (4 * p + 1) = Some g /\
  rd data (4 * p + 2) = Some b /\ rd data (4 * p + 3) = Some a.

(** Pixel [p] is one that [filterDesigPixels] hides: complete, not
    transparent, nearer than the threshold to its nearest designation colour,
    and classified into a hidden category. *)
Definition desig_hidden (data : bytes) (hideSet : HideSet) (p : nat) : Prop :=
  exists r g b a idx d,
    pixel_at data p r g b a /\ a <> 0 /\
    first_nearest DESIG_COLORS r g b idx d /\ d < THRESHOLD /\
    has hideSet idx = true.

(** ** The range check of the interpolation *)

(** [0 <= x && x < 255.5] on Numbers. *)
Definition rounds_to_byte (x : float) : bool :=
  (0 <=? x)%float && (x <? 255.5)%float.

Fixpoint range_all (n : nat) (lo : Z) (f : Z -> bool) : bool :=
  match n with
  | O => true
  | S n' => if f lo then range_all n' (lo + 1) f else false
  end.

Fixpoint range_allF (n : nat) (lo : float) (f : float -> bool) : bool :=
  match n with
  | O => true
  | S n' => if f lo then range_allF n' (lo + 1)%float f else false
  end.

(** The (source, destination) values of the three channels of an entry. *)
Definition channels (m : mapping) : list (Z * Z) :=
  [ (red (src m), red (dst m));
    (green (src m), green (dst m));
    (blue (src m), blue (dst m)) ].

(** For one palette channel: every squared distance [d2] in [1, 11999] and
    every byte [c] within [sqrt d2] of the source value interpolate to a
    Number in [0, 255.5). *)
Definition check_channel (sd : Z * Z) : bool :=
  let '(s, d) := sd in
  let fd := JS.toF (d - s) in
  range_all (Z.to_nat 11999) 1 (fun d2 =>
    let y := (fd * blend_t (Fin d2))%float in
    let D := Z.sqrt d2 in
    let lo := Z.max 0 (s - D) in
    range_allF (Z.to_nat (Z.min 255 (s + D) - lo + 1)) (JS.toF lo)
      (fun c => rounds_to_byte (c + y)%float)).

(** ** Cache histories *)

(** Sequences of cache operations, from the empty cache of a fresh process. *)
Inductive cache_op :=
| Get (now : Z) (key : string)
| Put (now : Z) (key : string) (buf : bytes).

Definition apply_op (c : Map) (o : cache_op) : Map :=
  match o with
  | Get now key => snd (getCachedTile now key c)
  | Put now key buf => setCachedTile now key buf c
  end.

Definition run (ops : list cache_op) : Map := fold_left apply_op ops [].

Definition cache_inv (c : Map) : Prop :=
  NoDup (keys c) /\ (length c <= TILE_CACHE_MAX)%nat.

(** The cache key of the [n]-th of a family of distinct plow tiles. *)
Definition tile_key (n : nat) : string :=
  String.append "/api/highlight?layerName=VISITED&x="
                (NilZero.string_of_uint (Nat.to_uint n)).

(** A cache filled to capacity by 2000 [put]s of distinct keys at time 0. *)
Definition full_cache : Map :=
  run (map (fun n => Put 0 (tile_key n) []) (seq 0 TILE_CACHE_MAX)).

(** The entries of [full_cache] in closed form. *)
Definition fresh_entries (n : nat) : Map :=
  map (fun i => (tile_key i, CacheEntry [] 0)) (seq 0 n).

(** ** Hide tokens and request URLs *)

Definition not_nan (x : float) : bool := negb (PrimFloat.is_nan x).

(** Every character of [s] satisfies [p]. *)
Fixpoint all_chars (p : ascii -> bool) (s : string) : bool :=
  match s with
  | EmptyString => true
  | String c s' => p c && all_chars p s'
  end.

Definition is_not (c : ascii) (a : ascii) : bool := negb (Ascii.eqb a c).

(** No [?] and no [#] in [s]. *)
Definition no_delims (s : string) : bool :=
  all_chars (fun a => is_not "?" a && is_not "#" a) s.

(** The [&]-separated sequences of the query of [url]. *)
Definition sequences (url : string) : list string :=
  match raw_query url with
  | Some q => Str.split "&" q
  | None => []
  end.

(** A sequence that sets the parameter [hide]. *)
Definition is_hide (utf8 : string -> string) (seq : string) : bool :=
  String.eqb (fst (parse_pair utf8 seq)) "hide".

(** Two request URLs that differ only in their [hide] parameters: the same
    path, and the same sequences once those that set [hide] are left out. *)
Definition same_but_hide (utf8 : string -> string) (u1 u2 : string) : Prop :=
  raw_path u1 = raw_path u2 /\
  filter (fun q => negb (is_hide utf8 q)) (sequences u1)
  = filter (fun q => negb (is_hide utf8 q)) (sequences u2).

(** The characters the serializer writes. *)
Definition param_char (a : ascii) : bool :=
  Url.unreserved a || Ascii.eqb a "+" || Ascii.eqb a "%".

Definition serialize_pair (nv : string * string) : string :=
  Url.byte_serialize (fst nv) ++ "=" ++ Url.byte_serialize (snd nv).

(** ** A codec for the worked examples *)

(** A codec that stores raw RGBA bytes as they are, for images of one row. *)
Definition raw_decode (input : bytes) : option (Z * Z * bytes) :=
  Some (Z.of_nat (length input) / 4, 1, input).

Definition raw_encode (width height : Z) (raw : bytes) : option bytes := Some raw.

(** ** Further vocabulary *)

(** [a === 0] for a read of the alpha byte. *)
Definition transparent (a : option Z) : bool :=
  match a with
  | Some 0 => true
  | _ => false
  end.

(** [1 - Math.sqrt(d) / 110], the blend factor before [Math.max(0, _)]. *)
Definition raw_t (d : Z) : float := (1 - PrimFloat.sqrt (JS.toF d) / 110)%float.

Definition proper_fraction (x : float) : bool :=
  negb (PrimFloat.is_nan x) && (0 <? x)%float && (x <? 1)%float.

(** The value of a Number without the sign of a zero: what [SameValueZero]
    compares. *)
Definition svz_class (x : float) : spec_float :=
  match Prim2SF x with
  | S754_zero _ => S754_zero false
  | s => s
  end.

(** The decimal numeral of a palette index, as a client writes it in the
    [hide] parameter. *)
Definition numeral (n : nat) : string := NilZero.string_of_uint (Nat.to_uint n).

(** The cache after the lookups [gets], each a time and a key. *)
Definition lookups (gets : list (Z * string)) (c : Map) : Map :=
  fold_left apply_op (map (fun g => Get (fst g) (snd g)) gets) c.

(** The entry [kv] was stored by one of the operations [ops]. *)
Definition put_by (ops : list cache_op) (kv : string * cache_entry) : Prop :=
  In (Put (timestamp (snd kv)) (fst kv) (buffer (snd kv))) ops.

(** What happens to the cache while the server runs: a request arrives and
    probes the cache, or the upstream answer to a request has ended. *)
Inductive event :=
| Request (url : string) (now : Z)
| Answer (url : string) (proxyRes : upstream_response) (now : Z).

Definition handle (pathname_of utf8 : string -> string)
    (decode : bytes -> option (Z * Z * bytes)) (encode : Z -> Z -> bytes -> option bytes)
    (c : Map) (ev : event) : Map :=
  match ev with
  | Request url now => snd (on_request pathname_of utf8 decode encode url now c)
  | Answer url proxyRes now =>
      snd (on_upstream_response decode encode
             (request_context pathname_of utf8 url) proxyRes now c)
  end.

(** The cache after the events [evs], from the empty cache of a fresh
    process. *)
Definition serve (pathname_of utf8 : string -> string)
    (decode : bytes -> option (Z * Z * bytes)) (encode : Z -> Z -> bytes -> option bytes)
    (evs : list event) : Map :=
  fold_left (handle pathname_of utf8 decode encode) evs [].

(** The entry [kv] holds the body of an upstream answer among [evs] that was
    a 200 with an image content type, to a tile request, under the request's
    URL without [hide]. *)
Definition raw_tile_of (pathname_of utf8 : string -> string) (evs : list event)
    (kv : string * cache_entry) : Prop :=
  exists url proxyRes,
    In (Answer url proxyRes (timestamp (snd kv))) evs /\
    fst kv = cleanUrl (request_context pathname_of utf8 url) /\
    buffer (snd kv) = upstream_body proxyRes /\
    statusCode proxyRes = 200 /\
    Str.includes "image" (or_default (upstream_content_type proxyRes) EmptyString) = true /\
    isTileReq (request_context pathname_of utf8 url) = true.

(** * Part III: properties of the pixel transformers *)

(** ** Reads and stores *)

Lemma length_upd (d : bytes) (i : nat) (v : Z) : length (upd d i v) = length d.
Proof.
  revert i; induction d as [|x d IH]; intros [|i]; simpl; auto.
Qed.

Lemma rd_upd (d : bytes) (k j : nat) (v : Z) :
  rd (upd d k v) j =
  if Nat.eqb j k then option_map (fun _ => v) (rd d k) else rd d j.
Proof.
  unfold rd. revert k j; induction d as [|x d IH]; intros k j.
  - destruct k, j; simpl; try reflexivity; destruct (Nat.eqb j k); reflexivity.
  - destruct k as [|k], j as [|j]; simpl; try reflexivity.
    apply IH.
Qed.

Lemma length_store (d : bytes) (i : nat) (v : option Z) :
  length (store d i v) = length d.
Proof. apply length_upd. Qed.

Lemma rd_store (d : bytes) (k j : nat) (v : option Z) :
  rd (store d k v) j =
  if Nat.eqb j k then option_map (fun _ => JS.ToUint8 v) (rd d k) else rd d j.
Proof. apply rd_upd. Qed.

Lemma rd_store_other (d : bytes) (k j : nat) (v : option Z) :
  j <> k -> rd (store d k v) j = rd d j.
Proof.
  intros Hne. rewrite rd_store.
  destruct (Nat.eqb_spec j k); [contradiction | reflexivity].
Qed.

Lemma rd_store_same (d : bytes) (k : nat) (v : option Z) (x : Z) :
  rd d k = Some x -> rd (store d k v) k = Some (JS.ToUint8 v).
Proof.
  intros Hx. rewrite rd_store, Nat.eqb_refl, Hx. reflexivity.
Qed.

Lemma rd_some_lt (d : bytes) (i : nat) (x : Z) : rd d i = Some x -> (i < length d)%nat.
Proof.
  unfold rd; intros H. apply nth_error_Some. congruence.
Qed.

(** ** The pixel loop touches each pixel once, with its own step *)

Section PixelLoop.

Variable step : nat -> bytes -> bytes.

(** The step at offset [i] writes only the four bytes of its pixel ... *)
Hypothesis step_outside :
  forall i d j, (j < i \/ i + 4 <= j)%nat -> rd (step i d) j = rd d j.

(** ... and what it writes there depends only on those four bytes. *)
Hypothesis step_local :
  forall i d d',
    (forall j, (i <= j < i + 4)%nat -> rd d j = rd d' j) ->
    forall j, (i <= j < i + 4)%nat -> rd (step i d) j = rd (step i d') j.

Lemma pixel_loop_outside (n i : nat) (d : bytes) (j : nat) :
  (j < i \/ i + 4 * n <= j)%nat -> rd (pixel_loop step n i d) j = rd d j.
Proof.
  revert i d; induction n as [|n IH]; intros i d Hj; simpl.
  - reflexivity.
  - rewrite IH by lia. apply step_outside. lia.
Qed.

Lemma pixel_loop_inside (n i : nat) (d : bytes) (p k : nat) :
  (p < n)%nat -> (k < 4)%nat ->
  rd (pixel_loop step n i d) (i + 4 * p + k) = rd (step (i + 4 * p) d) (i + 4 * p + k).
Proof.
  revert i d p; induction n as [|n IH]; intros i d p Hp Hk; [lia|].
  cbn [pixel_loop]. destruct p as [|p].
  - replace (i + 4 * 0)%nat with i by lia.
    apply pixel_loop_outside. lia.
  - replace (i + 4 * S p)%nat with (i + 4 + 4 * p)%nat by lia.
    rewrite IH by lia.
    apply step_local; [|lia].
    intros j Hj. apply step_outside. lia.
Qed.

End PixelLoop.

(** ** Locality of the two loop bodies *)

Lemma remap_step_outside (hs : option HideSet) (i : nat) (d : bytes) (j : nat) :
  (j < i \/ i + 4 <= j)%nat -> rd (remap_step hs i d) j = rd d j.
Proof.
  intros Hj. unfold remap_step.
  destruct (rd d (i + 3)) as [[| |]|];
    try reflexivity;
    destruct (nearest _ _ _ _) as [bi bd];
    destruct (below_threshold bd); try reflexivity;
    destruct (hidden hs bi); try (destruct (is_zero_dist bd));
    rewrite ?rd_store_other by lia; reflexivity.
Qed.

Lemma remap_step_local (hs : option HideSet) (i : nat) (d d' : bytes) :
  (forall j, (i <= j < i + 4)%nat -> rd d j = rd d' j) ->
  forall j, (i <= j < i + 4)%nat -> rd (remap_step hs i d) j = rd (remap_step hs i d') j.
Proof.
  intros H j Hj. unfold remap_step.
  assert (H0 : rd d i = rd d' i) by (apply H; lia).
  assert (H1 : rd d (i + 1) = rd d' (i + 1)) by (apply H; lia).
  assert (H2 : rd d (i + 2) = rd d' (i + 2)) by (apply H; lia).
  assert (H3 : rd d (i + 3) = rd d' (i + 3)) by (apply H; lia).
  rewrite H0, H1, H2, H3.
  destruct (rd d' (i + 3)) as [[| |]|] eqn:E3;
    try (apply H; lia);
    destruct (nearest _ _ _ _) as [bi bd];
    destruct (below_threshold bd); try (apply H; lia);
    destruct (hidden hs bi); try (destruct (is_zero_dist bd));
    rewrite !rd_store;
    repeat match goal with
           | |- context [Nat.eqb ?a ?b] => destruct (Nat.eqb_spec a b)
           end;
    rewrite ?H0, ?H1, ?H2, ?H3, ?E3; try reflexivity; apply H; lia.
Qed.

Lemma filter_step_outside (hs : HideSet) (i : nat) (d : bytes) (j : nat) :
  (j < i \/ i + 4 <= j)%nat -> rd (filter_step hs i d) j = rd d j.
Proof.
  intros Hj. unfold filter_step.
  destruct (rd d (i + 3)) as [[| |]|];
    try reflexivity;
    destruct (nearest _ _ _ _) as [bi bd];
    destruct (below_threshold bd && has hs bi);
    rewrite ?rd_store_other by lia; reflexivity.
Qed.

Lemma filter_step_local (hs : HideSet) (i : nat) (d d' : bytes) :
  (forall j, (i <= j < i + 4)%nat -> rd d j = rd d' j) ->
  forall j, (i <= j < i + 4)%nat -> rd (filter_step hs i d) j = rd (filter_step hs i d') j.
Proof.
  intros H j Hj. unfold filter_step.
  assert (H0 : rd d i = rd d' i) by (apply H; lia).
  assert (H1 : rd d (i + 1) = rd d' (i + 1)) by (apply H; lia).
  assert (H2 : rd d (i + 2) = rd d' (i + 2)) by (apply H; lia).
  assert (H3 : rd d (i + 3) = rd d' (i + 3)) by (apply H; lia).
  rewrite H0, H1, H2, H3.
  destruct (rd d' (i + 3)) as [[| |]|] eqn:E3;
    try (apply H; lia);
    destruct (nearest _ _ _ _) as [bi bd];
    destruct (below_threshold bd && has hs bi); try (apply H; lia);
    rewrite !rd_store;
    repeat match goal with
           | |- context [Nat.eqb ?a ?b] => destruct (Nat.eqb_spec a b)
           end;
    rewrite ?H3, ?E3; try reflexivity; apply H; lia.
Qed.

Lemma remap_step_length (hs : option HideSet) (i : nat) (d : bytes) :
  length (remap_step hs i d) = length d.
Proof.
  unfold remap_step.
  destruct (rd d (i + 3)) as [[| |]|];
    try reflexivity;
    destruct (nearest _ _ _ _) as [bi bd];
    destruct (below_threshold bd); try reflexivity;
    destruct (hidden hs bi); try (destruct (is_zero_dist bd));
    rewrite ?length_store; reflexivity.
Qed.

Lemma filter_step_length (hs : HideSet) (i : nat) (d : bytes) :
  length (filter_step hs i d) = length d.
Proof.
  unfold filter_step.
  destruct (rd d (i + 3)) as [[| |]|];
    try reflexivity;
    destruct (nearest _ _ _ _) as [bi bd];
    destruct (below_threshold bd && has hs bi);
    rewrite ?length_store; reflexivity.
Qed.

Lemma pixel_loop_length (step : nat -> bytes -> bytes) :
  (forall i d, length (step i d) = length d) ->
  forall n i d, length (pixel_loop step n i d) = length d.
Proof.
  intros Hstep n; induction n as [|n IH]; intros i d; simpl; [reflexivity|].
  rewrite IH. apply Hstep.
Qed.

Lemma remapPixels_length (data : bytes) (hs : option HideSet) :
  length (remapPixels data hs) = length data.
Proof. apply pixel_loop_length, remap_step_length. Qed.


Lemma iterations_cover (len : nat) : (len <= 4 * iterations len)%nat.
Proof.
  unfold iterations.
  pose proof (Nat.div_mod_eq (len + 3) 4) as E.
  pose proof (Nat.mod_upper_bound (len + 3) 4) as U.
  lia.
Qed.

Lemma rd_beyond (d d' : bytes) (j : nat) :
  length d' = length d -> (length d <= j)%nat -> rd d' j = rd d j.
Proof.
  intros Hl Hj. unfold rd.
  rewrite (proj2 (nth_error_None d j)) by lia.
  apply nth_error_None. lia.
Qed.

(** Byte [k] of pixel [p] after the whole pass is byte [k] of that pixel after
    its own step on the input buffer. *)
Lemma remapPixels_pixel (data : bytes) (hs : option HideSet) (p k : nat) :
  (k < 4)%nat ->
  rd (remapPixels data hs) (4 * p + k) = rd (remap_step hs (4 * p) data) (4 * p + k).
Proof.
  intros Hk. unfold remapPixels.
  destruct (Nat.lt_ge_cases p (iterations (length data))) as [Hp|Hp].
  - apply (pixel_loop_inside (remap_step hs) (remap_step_outside hs)
             (remap_step_local hs) _ 0 data p k Hp Hk).
  - pose proof (iterations_cover (length data)) as Hc.
    rewrite pixel_loop_outside by (apply remap_step_outside || lia).
    symmetry. apply rd_beyond; [apply remap_step_length | lia].
Qed.

Lemma remapPixels_pixel_0 (data : bytes) (hs : option HideSet) (p : nat) :
  rd (remapPixels data hs) (4 * p) = rd (remap_step hs (4 * p) data) (4 * p).
Proof.
  pose proof (remapPixels_pixel data hs p 0) as H.
  rewrite Nat.add_0_r in H. apply H. lia.
Qed.

Lemma filterDesigPixels_pixel (data : bytes) (hs : HideSet) (p k : nat) :
  (k < 4)%nat ->
  rd (filterDesigPixels data hs) (4 * p + k) = rd (filter_step hs (4 * p) data) (4 * p + k).
Proof.
  intros Hk. unfold filterDesigPixels.
  destruct (Nat.lt_ge_cases p (iterations (length data))) as [Hp|Hp].
  - apply (pixel_loop_inside (filter_step hs) (filter_step_outside hs)
             (filter_step_local hs) _ 0 data p k Hp Hk).
  - pose proof (iterations_cover (length data)) as Hc.
    rewrite pixel_loop_outside by (apply filter_step_outside || lia).
    symmetry. apply rd_beyond; [apply filter_step_length | lia].
Qed.

(** ** The nearest-colour search returns the first minimum *)

Lemma sqdist_some (r g b : Z) (s : rgb) :
  sqdist (Some r) (Some g) (Some b) s = Some (sq r g b s).
Proof. reflexivity. Qed.

Lemma sq_nonneg (r g b : Z) (s : rgb) : 0 <= sq r g b s.
Proof.
  unfold sq.
  pose proof (Z.square_nonneg (r - red s)).
  pose proof (Z.square_nonneg (g - green s)).
  pose proof (Z.square_nonneg (b - blue s)).
  lia.
Qed.

Lemma sq_zero_iff (r g b : Z) (s : rgb) : sq r g b s = 0 <-> RGB r g b = s.
Proof.
  unfold sq. destruct s as [sr sg sb]; simpl. split.
  - intros H.
    pose proof (Z.square_nonneg (r - sr)) as Hr.
    pose proof (Z.square_nonneg (g - sg)) as Hg.
    pose proof (Z.square_nonneg (b - sb)) as Hb.
    assert (Er : (r - sr) * (r - sr) = 0) by lia.
    assert (Eg : (g - sg) * (g - sg) = 0) by lia.
    assert (Eb : (b - sb) * (b - sb) = 0) by lia.
    apply Z.mul_eq_0 in Er, Eg, Eb.
    f_equal; lia.
  - intros H; inversion H; subst. lia.
Qed.

(** Goals about the positions of [c :: pal], by cases on the position. *)
Ltac by_position :=
  repeat split; try lia; auto;
  match goal with
  | |- forall k' s', nth_error (_ :: _) k' = Some s' -> _ =>
      intros [|?k'] ?s' ?Hk'; simpl in *;
      [ match goal with E : Some _ = Some _ |- _ => inversion E; subst; lia end
      | eauto ]
  | |- forall k' s', (k' < _)%nat -> nth_error (_ :: _) k' = Some s' -> _ =>
      intros [|?k'] ?s' ?Hlt ?Hk'; simpl in *;
      [ first [ lia | match goal with E : Some _ = Some _ |- _ => inversion E; subst; lia end ]
      | match goal with
        | Hf : forall k' s', (k' < _)%nat -> _ |- _ => eapply Hf; [|eassumption]; lia
        end ]
  | |- forall k' s', (k' < 0)%nat -> _ => intros; lia
  end.

Lemma nearest_from_spec (r g b : Z) (pal : list rgb) :
  forall j0 bi b0 idx best,
    nearest_from j0 pal (Some r) (Some g) (Some b) (bi, Fin b0) = (idx, best) ->
    (idx = bi /\ best = Fin b0 /\
     forall k s, nth_error pal k = Some s -> b0 <= sq r g b s)
    \/
    (exists k s,
        idx = j0 + Z.of_nat k /\ nth_error pal k = Some s /\
        best = Fin (sq r g b s) /\ sq r g b s < b0 /\
        (forall k' s', nth_error pal k' = Some s' -> sq r g b s <= sq r g b s') /\
        (forall k' s', (k' < k)%nat -> nth_error pal k' = Some s' ->
                       sq r g b s < sq r g b s')).
Proof.
  induction pal as [|c pal IH]; intros j0 bi b0 idx best H.
  - simpl in H. inversion H; subst. left. repeat split.
    intros [|k] s Hk; discriminate.
  - cbn [nearest_from] in H. rewrite sqdist_some in H. cbn [snd closer] in H.
    destruct (Z.ltb_spec (sq r g b c) b0) as [Hlt|Hge];
      apply IH in H;
      destruct H as [(-> & -> & Hall) | (k & s & -> & Hk & -> & Hlt' & Hmin & Hfirst)].
    + right. exists 0%nat, c. by_position.
    + right. exists (S k), s. by_position.
    + left. by_position.
    + right. exists (S k), s. by_position.
Qed.

(** On a defined pixel and a non-empty palette the search ends with a finite
    distance and the first index that attains the minimum. *)
Lemma nearest_spec (pal : list rgb) (r g b : Z) :
  pal <> [] ->
  exists idx d,
    nearest pal (Some r) (Some g) (Some b) = (idx, Fin d) /\
    first_nearest pal r g b idx d.
Proof.
  destruct pal as [|c pal]; [congruence|]; intros _.
  unfold nearest. cbn [nearest_from]. rewrite sqdist_some. cbn [snd closer].
  destruct (nearest_from (0 + 1) pal (Some r) (Some g) (Some b) (0, Fin (sq r g b c)))
    as [idx best] eqn:E.
  apply nearest_from_spec in E.
  destruct E as [(-> & -> & Hall) | (k & s & -> & Hk & -> & Hlt & Hmin & Hfirst)].
  - exists 0, (sq r g b c). split; [reflexivity|].
    exists 0%nat, c. by_position.
  - exists (0 + 1 + Z.of_nat k), (sq r g b s). split; [reflexivity|].
    exists (S k), s. by_position.
Qed.

(** A channel that is [undefined] makes every distance [NaN]: nothing is
    ever closer and the search ends where it started. *)
Lemma nearest_from_undefined (pal : list rgb) (r g b : option Z) :
  r = None \/ g = None \/ b = None ->
  forall j acc, nearest_from j pal r g b acc = acc.
Proof.
  intros Hu. assert (Hd : forall s, sqdist r g b s = None).
  { intros s. destruct r, g, b; try reflexivity.
    destruct Hu as [H|[H|H]]; discriminate. }
  induction pal as [|c pal IH]; intros j acc; simpl; [reflexivity|].
  rewrite Hd. simpl. apply IH.
Qed.

Lemma nearest_det (pal : list rgb) (r g b : Z) (idx : Z) (d : Z) :
  nearest pal (Some r) (Some g) (Some b) = (idx, Fin d) ->
  first_nearest pal r g b idx d.
Proof.
  intros H. destruct pal as [|c pal]; [discriminate|].
  destruct (nearest_spec (c :: pal) r g b) as (idx' & d' & E & Hn); [discriminate|].
  rewrite H in E. inversion E; subst. exact Hn.
Qed.

Lemma first_nearest_unique (pal : list rgb) (r g b : Z) (i1 d1 i2 d2 : Z) :
  first_nearest pal r g b i1 d1 -> first_nearest pal r g b i2 d2 ->
  i1 = i2 /\ d1 = d2.
Proof.
  intros (k1 & s1 & -> & Hk1 & -> & Hmin1 & Hfirst1)
         (k2 & s2 & -> & Hk2 & -> & Hmin2 & Hfirst2).
  pose proof (Hmin1 _ _ Hk2). pose proof (Hmin2 _ _ Hk1).
  split; [|lia].
  destruct (Nat.lt_trichotomy k1 k2) as [Hlt|[->|Hlt]]; [|reflexivity|].
  - pose proof (Hfirst2 _ _ Hlt Hk1). lia.
  - pose proof (Hfirst1 _ _ Hlt Hk2). lia.
Qed.

(** The search as run by the two loop bodies on a complete pixel. *)
Lemma nearest_at (pal : list rgb) (data : bytes) (p : nat) (r g b a idx d : Z) :
  pixel_at data p r g b a -> first_nearest pal r g b idx d ->
  nearest pal (rd data (4 * p)) (rd data (4 * p + 1)) (rd data (4 * p + 2)) = (idx, Fin d).
Proof.
  intros (Hr & Hg & Hb & _) Hn. rewrite Hr, Hg, Hb.
  assert (Hne : pal <> []).
  { destruct Hn as ([|k] & s & _ & Hk & _); destruct pal; discriminate. }
  destruct (nearest_spec pal r g b Hne) as (idx' & d' & E & Hn').
  destruct (first_nearest_unique _ _ _ _ _ _ _ _ Hn Hn') as [-> ->].
  exact E.
Qed.

Lemma nearest_from_index (pal : list rgb) (r g b : option Z) :
  forall j0 acc,
    fst (nearest_from j0 pal r g b acc) = fst acc \/
    j0 <= fst (nearest_from j0 pal r g b acc) < j0 + Z.of_nat (length pal).
Proof.
  induction pal as [|c pal IH]; intros j0 acc; [left; reflexivity|].
  cbn [nearest_from length].
  destruct (closer (sqdist r g b c) (snd acc)).
  - destruct (IH (j0 + 1) (j0, match sqdist r g b c with
                                | Some d => Fin d
                                | None => Infinity
                                end)) as [E|E]; cbn [fst] in E; lia.
  - destruct (IH (j0 + 1) acc) as [E|E]; [left; exact E | lia].
Qed.

(** [bestIdx] is [-1] or an index of the palette. *)
Lemma nearest_index_range (pal : list rgb) (r g b : option Z) :
  -1 <= fst (nearest pal r g b) < Z.of_nat (length pal).
Proof.
  unfold nearest.
  destruct (nearest_from_index pal r g b 0 (-1, Infinity)) as [E|E];
    cbn [fst] in E; lia.
Qed.

(** ** Transparent pixels (C7) *)

(** C7. Both [remapPixels] and [filterDesigPixels] leave every pixel whose
    alpha byte is 0 unchanged in all four bytes, whatever its RGB bytes and
    whatever the hide-set. *)
Theorem transparent_pixels_untouched
    (data : bytes) (hideSet : option HideSet) (hideSet' : HideSet) (p k : nat) :
  rd data (4 * p + 3) = Some 0 ->
  (k < 4)%nat ->
  rd (remapPixels data hideSet) (4 * p + k) = rd data (4 * p + k) /\
  rd (filterDesigPixels data hideSet') (4 * p + k) = rd data (4 * p + k).
Proof.
  intros Ha Hk. split.
  - rewrite remapPixels_pixel by assumption.
    unfold remap_step. rewrite Ha. reflexivity.
  - rewrite filterDesigPixels_pixel by assumption.
    unfold filter_step. rewrite Ha. reflexivity.
Qed.

Lemma transparent_pixels_untouched_witness :
  rd (remapPixels [0; 128; 0; 0; 0; 128; 0; 255] (Some [0%float])) 0 = Some 0 /\
  rd (filterDesigPixels [0; 128; 0; 0; 0; 128; 0; 255] [0%float]) 0 = Some 0.
Proof.
  apply (transparent_pixels_untouched
           [0; 128; 0; 0; 0; 128; 0; 255] (Some [0%float]) [0%float] 0 0).
  - reflexivity.
  - lia.
Defined.

(** ** The designation filter (C6) *)

(** C6. [filterDesigPixels] never changes an R, G or B byte; it sets alpha to 0
    for exactly the pixels of [desig_hidden]; every other pixel keeps all of
    its bytes. *)
Theorem filterDesigPixels_only_alpha (data : bytes) (hideSet : HideSet) :
  (forall p k, (k < 3)%nat ->
     rd (filterDesigPixels data hideSet) (4 * p + k) = rd data (4 * p + k)) /\
  (forall p, desig_hidden data hideSet p ->
     rd (filterDesigPixels data hideSet) (4 * p + 3) = Some 0) /\
  (forall p, ~ desig_hidden data hideSet p ->
     rd (filterDesigPixels data hideSet) (4 * p + 3) = rd data (4 * p + 3)).
Proof.
  split; [|split].
  - intros p k Hk. rewrite filterDesigPixels_pixel by lia.
    unfold filter_step.
    destruct (rd data (4 * p + 3)) as [[| |]|]; try reflexivity;
      destruct (nearest _ _ _ _) as [bi bd];
      destruct (below_threshold bd && has hideSet bi); try reflexivity;
      apply rd_store_other; lia.
  - intros p (r & g & b & a & idx & d & Hpx & Ha & Hn & Hd & Hh).
    rewrite filterDesigPixels_pixel by lia.
    unfold filter_step. rewrite (nearest_at _ _ _ _ _ _ _ _ _ Hpx Hn).
    destruct Hpx as (_ & _ & _ & Hal). rewrite Hal.
    cbn [below_threshold]. rewrite (proj2 (Z.ltb_lt d THRESHOLD) Hd), Hh.
    destruct a as [| |]; [congruence| |]; cbn [andb];
      exact (rd_store_same _ _ (Some 0) _ Hal).
  - intros p Hnot.
    rewrite filterDesigPixels_pixel by lia.
    unfold filter_step.
    destruct (rd data (4 * p + 3)) as [a|] eqn:Hal.
    + assert (Hgoal :
        (let '(bestIdx, bestDist) :=
           nearest DESIG_COLORS (rd data (4 * p)) (rd data (4 * p + 1)) (rd data (4 * p + 2)) in
         if below_threshold bestDist && has hideSet bestIdx
         then store data (4 * p + 3) (Some 0) else data) = data \/ a = 0).
      { destruct (Z.eq_dec a 0) as [|Ha]; [right; assumption | left].
        destruct (rd data (4 * p)) as [r|] eqn:Hr;
          [destruct (rd data (4 * p + 1)) as [g|] eqn:Hg;
           [destruct (rd data (4 * p + 2)) as [b|] eqn:Hb|]|];
          try (unfold nearest; rewrite nearest_from_undefined by auto; reflexivity).
        destruct (nearest_spec DESIG_COLORS r g b) as (idx & d & E & Hn); [discriminate|].
        rewrite E. cbn [below_threshold].
        destruct (Z.ltb_spec d THRESHOLD) as [Hd|Hd]; [|reflexivity].
        destruct (has hideSet idx) eqn:Hh; [|reflexivity].
        exfalso. apply Hnot. exists r, g, b, a, idx, d. unfold pixel_at. auto 10. }
      destruct Hgoal as [E| ->]; [|exact Hal].
      destruct a as [| |]; try exact Hal; rewrite E; exact Hal.
    + destruct (nearest _ _ _ _) as [bi bd].
      destruct (below_threshold bd && has hideSet bi); [|assumption].
      rewrite rd_store, Nat.eqb_refl, Hal. reflexivity.
Qed.

(** ** Hidden categories in [remapPixels] (C5) *)

(** C5, as stated, fails: an opaque white pixel is nearest to palette
    entry 5 (squared distance 39774); with category 5 hidden its alpha stays
    255, because the hide test sits inside the [bestDist < 12000] branch. *)
Lemma hide_beyond_threshold_counterexample :
  ~ (forall (data : bytes) (hideSet : option HideSet) (p : nat) (r g b a idx d : Z),
        pixel_at data p r g b a -> a <> 0 ->
        first_nearest (map src COLOR_MAP) r g b idx d ->
        hidden hideSet idx = true ->
        rd (remapPixels data hideSet) (4 * p + 3) = Some 0).
Proof.
  intros H.
  specialize (H [255; 255; 255; 255] (Some [5%float]) 0%nat 255 255 255 255 5 39774).
  assert (E : rd (remapPixels [255; 255; 255; 255] (Some [5%float])) (4 * 0 + 3)
              = Some 255) by reflexivity.
  rewrite H in E; try discriminate.
  - repeat split.
  - apply nearest_det. reflexivity.
  - reflexivity.
Qed.

(** C5, amended. A non-transparent pixel whose nearest palette entry lies
    within the threshold (squared distance below 12000) and is a member of
    the hide-set gets alpha 0 and keeps its R, G and B bytes, whether the
    distance is 0 or not. *)
Theorem hidden_pixel_alpha_zero
    (data : bytes) (hideSet : option HideSet) (p : nat) (r g b a idx d : Z) :
  pixel_at data p r g b a -> a <> 0 ->
  first_nearest (map src COLOR_MAP) r g b idx d ->
  d < THRESHOLD ->
  hidden hideSet idx = true ->
  rd (remapPixels data hideSet) (4 * p + 3) = Some 0 /\
  rd (remapPixels data hideSet) (4 * p) = Some r /\
  rd (remapPixels data hideSet) (4 * p + 1) = Some g /\
  rd (remapPixels data hideSet) (4 * p + 2) = Some b.
Proof.
  intros Hpx Ha Hn Hd Hh.
  assert (Hstep : remap_step hideSet (4 * p) data = store data (4 * p + 3) (Some 0)).
  { unfold remap_step. rewrite (nearest_at _ _ _ _ _ _ _ _ _ Hpx Hn).
    destruct Hpx as (_ & _ & _ & Hal). rewrite Hal.
    cbn [below_threshold]. rewrite (proj2 (Z.ltb_lt d THRESHOLD) Hd), Hh.
    destruct a as [| |]; [congruence | reflexivity | reflexivity]. }
  destruct Hpx as (Hr & Hg & Hb & Hal).
  rewrite (remapPixels_pixel data hideSet p 3) by lia.
  rewrite (remapPixels_pixel data hideSet p 1) by lia.
  rewrite (remapPixels_pixel data hideSet p 2) by lia.
  rewrite remapPixels_pixel_0, Hstep.
  repeat split.
  - exact (rd_store_same _ _ (Some 0) _ Hal).
  - rewrite rd_store_other by lia. exact Hr.
  - rewrite rd_store_other by lia. exact Hg.
  - rewrite rd_store_other by lia. exact Hb.
Qed.

Lemma hidden_pixel_alpha_zero_witness :
  rd (remapPixels [10; 120; 5; 255] (Some [0%float])) 3 = Some 0 /\
  rd (remapPixels [10; 120; 5; 255] (Some [0%float])) 0 = Some 10 /\
  rd (remapPixels [10; 120; 5; 255] (Some [0%float])) 1 = Some 120 /\
  rd (remapPixels [10; 120; 5; 255] (Some [0%float])) 2 = Some 5.
Proof.
  apply (hidden_pixel_alpha_zero
           [10; 120; 5; 255] (Some [0%float]) 0 10 120 5 255 0 189).
  - repeat split.
  - lia.
  - apply nearest_det. reflexivity.
  - reflexivity.
  - reflexivity.
Defined.

(** ** Rounding a Number into a byte *)

Lemma pos_lt_pow_digits (m : positive) : Z.pos m < 2 ^ Z.pos (digits2_pos m).
Proof.
  induction m as [m IH|m IH|]; cbn [digits2_pos].
  - rewrite Pos2Z.inj_succ, Z.pow_succ_r by lia. lia.
  - rewrite Pos2Z.inj_succ, Z.pow_succ_r by lia. lia.
  - reflexivity.
Qed.

(** The mantissa of a valid binary64 value is below [2^53]. *)
Lemma valid_mantissa_bound (s : bool) (m : positive) (e : Z) :
  valid_binary (S754_finite s m e) = true -> Z.pos m < 2 ^ 53.
Proof.
  cbn [SpecFloat.valid_binary]. unfold bounded, canonical_mantissa, fexp, emin.
  intros H. apply andb_true_iff in H. destruct H as [H _].
  apply Z.eqb_eq in H.
  change prec with 53 in H. change emax with 1024 in H.
  assert (Hd : Z.pos (digits2_pos m) <= 53) by lia.
  pose proof (pos_lt_pow_digits m) as Hm.
  pose proof (Z.pow_le_mono_r 2 (Z.pos (digits2_pos m)) 53 ltac:(lia) Hd).
  lia.
Qed.

Lemma round_half_up_byte (m : positive) (e : Z) :
  e <= -45 -> Z.pos m < 2 ^ 53 ->
  (e = -45 -> Z.pos m < 8989607068696576) ->
  0 <= JS.round_half_up (Z.pos m) e <= 255.
Proof.
  intros He Hm Hm0. unfold JS.round_half_up.
  destruct (Z.leb_spec 0 e) as [H0|_]; [lia|].
  replace (1 - e) with (Z.succ (- e)) by lia.
  rewrite Z.pow_succ_r by lia.
  set (P := 2 ^ (- e)).
  assert (HP : 2 ^ 45 <= P) by (apply Z.pow_le_mono_r; lia).
  assert (HP0 : 0 < P) by (change (2 ^ 45) with 35184372088832 in HP; lia).
  assert (Hnum : 2 * Z.pos m + P < 2 * P * 256).
  { destruct (Z.eq_dec e (-45)) as [->|Hne].
    - specialize (Hm0 eq_refl). subst P. change (2 ^ (- -45)) with 35184372088832. lia.
    - assert (2 ^ 46 <= P) by (apply Z.pow_le_mono_r; lia).
      change (2 ^ 46) with 70368744177664 in *.
      change (2 ^ 53) with 9007199254740992 in *. lia. }
  split.
  - apply Z.div_pos; lia.
  - assert ((2 * Z.pos m + P) / (2 * P) < 256); [|lia].
    apply Z.div_lt_upper_bound; lia.
Qed.

(** A Number in [0, 255.5) rounds to a byte. *)
Lemma Math_round_byte (x : float) :
  rounds_to_byte x = true ->
  exists n, JS.Math_round x = Some n /\ 0 <= n <= 255.
Proof.
  unfold rounds_to_byte. intros H. apply andb_true_iff in H. destruct H as [H1 H2].
  rewrite FloatAxioms.leb_spec in H1. rewrite FloatAxioms.ltb_spec in H2.
  pose proof (Prim2SF_valid x) as V.
  unfold JS.Math_round.
  replace (Prim2SF 0) with (S754_zero false) in H1 by reflexivity.
  replace (Prim2SF 255.5) with (S754_finite false 8989607068696576 (-45)) in H2
    by reflexivity.
  destruct (Prim2SF x) as [s|s| |s m e].
  - exists 0. split; [reflexivity | lia].
  - destruct s; discriminate.
  - discriminate.
  - destruct s; [discriminate|].
    exists (JS.round_half_up (Z.pos m) e). split; [reflexivity|].
    unfold SFltb, SFcompare in H2.
    apply valid_mantissa_bound in V.
    destruct (Z.compare_spec e (-45)) as [He|He|He]; try discriminate.
    + apply round_half_up_byte; [clear H1 H2; lia | exact V |].
      intros _. rewrite Pos.compare_cont_spec in H2.
      destruct (Pos.compare_spec m 8989607068696576) as [Hc|Hc|Hc];
        [discriminate H2 | exact Hc | discriminate H2].
    + clear H1 H2. apply round_half_up_byte; [lia | exact V | lia].
Qed.

(** ** The interpolated channel is a byte *)

Lemma check_palette : forallb check_channel (flat_map channels COLOR_MAP) = true.
Proof. vm_compute. reflexivity. Qed.

Lemma range_all_spec (f : Z -> bool) (n : nat) :
  forall lo, range_all n lo f = true ->
  forall z, lo <= z < lo + Z.of_nat n -> f z = true.
Proof.
  induction n as [|n IH]; intros lo H z Hz; [lia|].
  cbn [range_all] in H. destruct (f lo) eqn:E; [|discriminate].
  destruct (Z.eq_dec z lo) as [->|Hne]; [exact E|].
  apply (IH (lo + 1) H). lia.
Qed.

Lemma toF_succ (c : Z) : 0 <= c < 255 -> JS.toF (c + 1) = (JS.toF c + 1)%float.
Proof.
  intros H. rewrite <- (Z2Nat.id c) by lia.
  assert (Hn : (Z.to_nat c < 255)%nat) by lia.
  generalize dependent (Z.to_nat c). clear H. intros n Hn.
  do 255 (destruct n as [|n]; [reflexivity|]).
  lia.
Qed.

Lemma range_allF_spec (f : float -> bool) (n : nat) :
  forall lo, range_allF n (JS.toF lo) f = true ->
  0 <= lo -> lo + Z.of_nat n <= 256 ->
  forall c, lo <= c < lo + Z.of_nat n -> f (JS.toF c) = true.
Proof.
  induction n as [|n IH]; intros lo H Hlo Hhi c Hc; [lia|].
  cbn [range_allF] in H. destruct (f (JS.toF lo)) eqn:E; [|discriminate].
  destruct (Z.eq_dec c lo) as [->|Hne]; [exact E|].
  rewrite <- toF_succ in H by lia.
  apply (IH (lo + 1) H); lia.
Qed.

(** The fact established by [check_palette], in logical form. *)
Lemma blend_channel_bound (m : mapping) (s d c d2 : Z) :
  In m COLOR_MAP -> In (s, d) (channels m) ->
  0 <= c <= 255 -> 0 < d2 < THRESHOLD -> (c - s) * (c - s) <= d2 ->
  rounds_to_byte (JS.toF c + JS.toF (d - s) * blend_t (Fin d2))%float = true.
Proof.
  intros Hm Hsd Hc Hd2 Hsq.
  pose proof check_palette as H. rewrite forallb_forall in H.
  specialize (H (s, d)). unfold check_channel in H.
  assert (Hin : In (s, d) (flat_map channels COLOR_MAP)).
  { apply in_flat_map. exists m. split; assumption. }
  specialize (H Hin). cbv zeta in H.
  unfold THRESHOLD in Hd2.
  pose proof (range_all_spec _ _ _ H d2) as H2.
  rewrite Z2Nat.id in H2 by lia. specialize (H2 ltac:(lia)).
  cbv beta in H2.
  pose proof (Z.sqrt_spec d2 ltac:(lia)) as [Hs1 Hs2].
  pose proof (Z.sqrt_nonneg d2) as Hs0.
  set (D := Z.sqrt d2) in *.
  assert (Hlo : s - D <= c <= s + D) by nia.
  apply (range_allF_spec _ _ _ H2); lia.
Qed.

(** ** Recolouring (C1, C10) *)

Lemma rd_byte (data : bytes) (i : nat) (x : Z) :
  Forall is_byte data -> rd data i = Some x -> 0 <= x <= 255.
Proof.
  intros Hall Hx. rewrite Forall_forall in Hall.
  apply Hall. eapply nth_error_In. exact Hx.
Qed.

(** The classified index selects an entry of the palette, whose source is
    the nearest colour. *)
Lemma entry_of_nearest (r g b idx d : Z) :
  first_nearest (map src COLOR_MAP) r g b idx d ->
  In (entry idx) COLOR_MAP /\ d = sq r g b (src (entry idx)) /\
  0 <= idx < Z.of_nat (length COLOR_MAP).
Proof.
  intros (k & s & -> & Hk & -> & _).
  rewrite nth_error_map in Hk.
  destruct (nth_error COLOR_MAP k) as [m|] eqn:E; [|discriminate].
  inversion Hk; subst s.
  assert (Hlt : (k < length COLOR_MAP)%nat) by (apply nth_error_Some; congruence).
  unfold entry. rewrite Nat2Z.id.
  rewrite (nth_error_nth _ _ dummy_mapping E).
  repeat split; try lia. eapply nth_error_In; exact E.
Qed.

(** The loop body on a complete, non-transparent pixel whose classified
    index is not hidden. *)
Lemma remap_step_visible
    (data : bytes) (hs : option HideSet) (p : nat) (r g b a idx d : Z) :
  pixel_at data p r g b a -> a <> 0 ->
  first_nearest (map src COLOR_MAP) r g b idx d ->
  hidden hs idx = false ->
  remap_step hs (4 * p) data =
  if d <? THRESHOLD then
    let m := entry idx in
    if d =? 0 then
      store (store (store data (4 * p) (Some (red (dst m))))
                   (4 * p + 1) (Some (green (dst m))))
            (4 * p + 2) (Some (blue (dst m)))
    else
      let t := blend_t (Fin d) in
      store (store (store data (4 * p)
                          (blend (Some r) (red (dst m)) (red (src m)) t))
                   (4 * p + 1) (blend (Some g) (green (dst m)) (green (src m)) t))
            (4 * p + 2) (blend (Some b) (blue (dst m)) (blue (src m)) t)
  else data.
Proof.
  intros Hpx Ha Hn Hh. unfold remap_step.
  rewrite (nearest_at _ _ _ _ _ _ _ _ _ Hpx Hn).
  destruct Hpx as (Hr & Hg & Hb & Hal). rewrite Hal, Hr, Hg, Hb.
  cbn [below_threshold is_zero_dist]. rewrite Hh.
  destruct a as [| |]; [congruence | reflexivity | reflexivity].
Qed.

Lemma rd_store3 (data : bytes) (i : nat) (v0 v1 v2 : option Z) (x0 x1 x2 : Z) :
  rd data i = Some x0 -> rd data (i + 1) = Some x1 -> rd data (i + 2) = Some x2 ->
  let out := store (store (store data i v0) (i + 1) v1) (i + 2) v2 in
  rd out i = Some (JS.ToUint8 v0) /\
  rd out (i + 1) = Some (JS.ToUint8 v1) /\
  rd out (i + 2) = Some (JS.ToUint8 v2).
Proof.
  intros H0 H1 H2. cbv zeta. rewrite !rd_store.
  repeat match goal with
         | |- context [Nat.eqb ?a ?b] =>
             destruct (Nat.eqb_spec a b); try lia
         end.
  rewrite H0, H1, H2. repeat split.
Qed.

Lemma ToUint8_byte (n : Z) : 0 <= n <= 255 -> JS.ToUint8 (Some n) = n.
Proof. intros H. apply Z.mod_small. lia. Qed.

(** In the interpolation branch each channel rounds to a byte. *)
Lemma blend_byte (m : mapping) (s d c d2 : Z) :
  In m COLOR_MAP -> In (s, d) (channels m) ->
  0 <= c <= 255 -> 0 < d2 < THRESHOLD -> (c - s) * (c - s) <= d2 ->
  exists n, blend (Some c) d s (blend_t (Fin d2)) = Some n /\ 0 <= n <= 255.
Proof.
  intros Hm Hsd Hc Hd2 Hsq. unfold blend. cbn [JS.num].
  apply Math_round_byte. eapply blend_channel_bound; eassumption.
Qed.

Lemma sq_channels (r g b : Z) (s : rgb) :
  (r - red s) * (r - red s) <= sq r g b s /\
  (g - green s) * (g - green s) <= sq r g b s /\
  (b - blue s) * (b - blue s) <= sq r g b s.
Proof.
  unfold sq.
  pose proof (Z.square_nonneg (r - red s)).
  pose proof (Z.square_nonneg (g - green s)).
  pose proof (Z.square_nonneg (b - blue s)).
  lia.
Qed.

(** The three interpolated channels of a pixel of a byte buffer. *)
Lemma blend_pixel_bytes (data : bytes) (p : nat) (r g b a idx d : Z) :
  Forall is_byte data -> pixel_at data p r g b a ->
  first_nearest (map src COLOR_MAP) r g b idx d ->
  0 < d < THRESHOLD ->
  let m := entry idx in
  let t := blend_t (Fin d) in
  exists nr ng nb,
    blend (Some r) (red (dst m)) (red (src m)) t = Some nr /\ 0 <= nr <= 255 /\
    blend (Some g) (green (dst m)) (green (src m)) t = Some ng /\ 0 <= ng <= 255 /\
    blend (Some b) (blue (dst m)) (blue (src m)) t = Some nb /\ 0 <= nb <= 255.
Proof.
  intros Hbytes (Hr & Hg & Hb & _) Hn Hd. cbv zeta.
  destruct (entry_of_nearest _ _ _ _ _ Hn) as (Hin & Hsq & _).
  pose proof (sq_channels r g b (src (entry idx))) as (Sr & Sg & Sb).
  rewrite <- Hsq in Sr, Sg, Sb.
  destruct (blend_byte (entry idx) (red (src (entry idx))) (red (dst (entry idx))) r d)
    as (nr & Er & Br);
    [assumption | simpl; auto | eapply rd_byte; eassumption | assumption | assumption |].
  destruct (blend_byte (entry idx) (green (src (entry idx))) (green (dst (entry idx))) g d)
    as (ng & Eg & Bg);
    [assumption | simpl; auto | eapply rd_byte; eassumption | assumption | assumption |].
  destruct (blend_byte (entry idx) (blue (src (entry idx))) (blue (dst (entry idx))) b d)
    as (nb & Eb & Bb);
    [assumption | simpl; auto | eapply rd_byte; eassumption | assumption | assumption |].
  exists nr, ng, nb. auto 10.
Qed.

(** C1. A complete, non-transparent pixel [(r, g, b, a)] of a byte buffer
    whose classified index [idx] (the first palette entry at the minimum
    squared distance [d]) is not hidden is recoloured by [remapPixels] in one
    of three ways: for [d >= 12000] its R, G and B bytes are kept; for
    [d = 0] the pixel is the source colour of entry [idx] and its R, G and B
    bytes become the destination colour; for [0 < d < 12000] each byte becomes
    [Math.round(c + (dst - src) * Math.max(0, 1 - Math.sqrt(d) / 110))],
    evaluated on JavaScript Numbers. *)
Theorem remapPixels_recolor
    (data : bytes) (hideSet : option HideSet) (p : nat) (r g b a idx d : Z) :
  Forall is_byte data ->
  pixel_at data p r g b a -> a <> 0 ->
  first_nearest (map src COLOR_MAP) r g b idx d ->
  hidden hideSet idx = false ->
  (THRESHOLD <= d ->
     rd (remapPixels data hideSet) (4 * p) = Some r /\
     rd (remapPixels data hideSet) (4 * p + 1) = Some g /\
     rd (remapPixels data hideSet) (4 * p + 2) = Some b) /\
  (d = 0 ->
     RGB r g b = src (entry idx) /\
     rd (remapPixels data hideSet) (4 * p) = Some (red (dst (entry idx))) /\
     rd (remapPixels data hideSet) (4 * p + 1) = Some (green (dst (entry idx))) /\
     rd (remapPixels data hideSet) (4 * p + 2) = Some (blue (dst (entry idx)))) /\
  (0 < d < THRESHOLD ->
     rd (remapPixels data hideSet) (4 * p) =
       JS.Math_round
         (JS.toF r + JS.toF (red (dst (entry idx)) - red (src (entry idx)))
                     * JS.Math_max 0 (1 - PrimFloat.sqrt (JS.toF d) / 110))%float /\
     rd (remapPixels data hideSet) (4 * p + 1) =
       JS.Math_round
         (JS.toF g + JS.toF (green (dst (entry idx)) - green (src (entry idx)))
                     * JS.Math_max 0 (1 - PrimFloat.sqrt (JS.toF d) / 110))%float /\
     rd (remapPixels data hideSet) (4 * p + 2) =
       JS.Math_round
         (JS.toF b + JS.toF (blue (dst (entry idx)) - blue (src (entry idx)))
                     * JS.Math_max 0 (1 - PrimFloat.sqrt (JS.toF d) / 110))%float).
Proof.
  intros Hbytes Hpx Ha Hn Hh.
  pose proof (remap_step_visible data hideSet p r g b a idx d Hpx Ha Hn Hh) as Hstep.
  rewrite (remapPixels_pixel data hideSet p 1) by lia.
  rewrite (remapPixels_pixel data hideSet p 2) by lia.
  rewrite remapPixels_pixel_0, Hstep.
  destruct (entry_of_nearest _ _ _ _ _ Hn) as (Hin & Hsq & _).
  pose proof Hpx as (Hr & Hg & Hb & _).
  split; [|split].
  - intros Hd. destruct (Z.ltb_spec d THRESHOLD); [lia|]. auto.
  - intros ->. cbv zeta. change (0 <? THRESHOLD) with true. cbn [Z.eqb].
    split; [apply sq_zero_iff; congruence|].
    destruct (rd_store3 data (4 * p) (Some (red (dst (entry idx))))
                (Some (green (dst (entry idx)))) (Some (blue (dst (entry idx))))
                r g b Hr Hg Hb) as (E0 & E1 & E2).
    rewrite E0, E1, E2.
    assert (Hdst : forall m, In m COLOR_MAP ->
              0 <= red (dst m) <= 255 /\ 0 <= green (dst m) <= 255 /\
              0 <= blue (dst m) <= 255).
    { intros m Hm. simpl in Hm.
      repeat (destruct Hm as [<-|Hm]; [simpl; lia|]). contradiction. }
    destruct (Hdst _ Hin) as (B0 & B1 & B2).
    rewrite !ToUint8_byte by assumption. auto.
  - intros Hd. cbv zeta.
    destruct (Z.ltb_spec d THRESHOLD); [|lia].
    destruct (Z.eqb_spec d 0); [lia|].
    destruct (blend_pixel_bytes data p r g b a idx d Hbytes Hpx Hn Hd)
      as (nr & ng & nb & Er & Br & Eg & Bg & Eb & Bb).
    destruct (rd_store3 data (4 * p)
                (blend (Some r) (red (dst (entry idx))) (red (src (entry idx))) (blend_t (Fin d)))
                (blend (Some g) (green (dst (entry idx))) (green (src (entry idx))) (blend_t (Fin d)))
                (blend (Some b) (blue (dst (entry idx))) (blue (src (entry idx))) (blend_t (Fin d)))
                r g b Hr Hg Hb) as (E0 & E1 & E2).
    rewrite E0, E1, E2.
    change (JS.Math_max 0 (1 - PrimFloat.sqrt (JS.toF d) / 110)) with (blend_t (Fin d)).
    change (JS.Math_round (JS.toF r + JS.toF (red (dst (entry idx)) - red (src (entry idx))) * blend_t (Fin d)))
      with (blend (Some r) (red (dst (entry idx))) (red (src (entry idx))) (blend_t (Fin d))).
    change (JS.Math_round (JS.toF g + JS.toF (green (dst (entry idx)) - green (src (entry idx))) * blend_t (Fin d)))
      with (blend (Some g) (green (dst (entry idx))) (green (src (entry idx))) (blend_t (Fin d))).
    change (JS.Math_round (JS.toF b + JS.toF (blue (dst (entry idx)) - blue (src (entry idx))) * blend_t (Fin d)))
      with (blend (Some b) (blue (dst (entry idx))) (blue (src (entry idx))) (blend_t (Fin d))).
    rewrite Er, Eg, Eb, !ToUint8_byte by assumption. auto.
Qed.

Lemma remapPixels_recolor_witness :
  rd (remapPixels [10; 120; 5; 255] None) 0 =
    JS.Math_round (JS.toF 10 + JS.toF (52 - 0)
                   * JS.Math_max 0 (1 - PrimFloat.sqrt (JS.toF 189) / 110))%float /\
  rd (remapPixels [10; 120; 5; 255] None) 1 =
    JS.Math_round (JS.toF 120 + JS.toF (168 - 128)
                   * JS.Math_max 0 (1 - PrimFloat.sqrt (JS.toF 189) / 110))%float /\
  rd (remapPixels [10; 120; 5; 255] None) 2 =
    JS.Math_round (JS.toF 5 + JS.toF (83 - 0)
                   * JS.Math_max 0 (1 - PrimFloat.sqrt (JS.toF 189) / 110))%float.
Proof.
  apply (proj2 (proj2 (remapPixels_recolor [10; 120; 5; 255] None 0 10 120 5 255 0 189
           ltac:(repeat constructor; unfold is_byte; lia)
           ltac:(repeat split)
           ltac:(lia)
           ltac:(apply nearest_det; reflexivity)
           eq_refl))).
  unfold THRESHOLD. lia.
Defined.

(** C10. In the interpolation branch ([0 < d < 12000], index not hidden) of a
    byte buffer, each of the three rounded values lies in [0, 255], and the
    byte stored is that value itself (the [ToUint8] conversion of the store
    does not wrap). *)
Theorem interpolation_stays_in_byte_range
    (data : bytes) (hideSet : option HideSet) (p : nat) (r g b a idx d : Z) :
  Forall is_byte data ->
  pixel_at data p r g b a -> a <> 0 ->
  first_nearest (map src COLOR_MAP) r g b idx d ->
  hidden hideSet idx = false ->
  0 < d < THRESHOLD ->
  exists nr ng nb,
    blend (Some r) (red (dst (entry idx))) (red (src (entry idx))) (blend_t (Fin d))
      = Some nr /\
    blend (Some g) (green (dst (entry idx))) (green (src (entry idx))) (blend_t (Fin d))
      = Some ng /\
    blend (Some b) (blue (dst (entry idx))) (blue (src (entry idx))) (blend_t (Fin d))
      = Some nb /\
    0 <= nr <= 255 /\ 0 <= ng <= 255 /\ 0 <= nb <= 255 /\
    rd (remapPixels data hideSet) (4 * p) = Some nr /\
    rd (remapPixels data hideSet) (4 * p + 1) = Some ng /\
    rd (remapPixels data hideSet) (4 * p + 2) = Some nb.
Proof.
  intros Hbytes Hpx Ha Hn Hh Hd.
  pose proof (remap_step_visible data hideSet p r g b a idx d Hpx Ha Hn Hh) as Hstep.
  destruct (blend_pixel_bytes data p r g b a idx d Hbytes Hpx Hn Hd)
    as (nr & ng & nb & Er & Br & Eg & Bg & Eb & Bb).
  exists nr, ng, nb.
  rewrite (remapPixels_pixel data hideSet p 1) by lia.
  rewrite (remapPixels_pixel data hideSet p 2) by lia.
  rewrite remapPixels_pixel_0, Hstep.
  destruct (Z.ltb_spec d THRESHOLD); [|lia].
  destruct (Z.eqb_spec d 0); [lia|].
  cbv zeta. rewrite Er, Eg, Eb.
  destruct Hpx as (Hr & Hg & Hb & _).
  destruct (rd_store3 data (4 * p) (Some nr) (Some ng) (Some nb) r g b Hr Hg Hb)
    as (E0 & E1 & E2).
  rewrite E0, E1, E2, !ToUint8_byte by assumption. auto 10.
Qed.

Lemma interpolation_stays_in_byte_range_witness :
  exists nr ng nb,
    blend (Some 10) 52 0 (blend_t (Fin 189)) = Some nr /\
    blend (Some 120) 168 128 (blend_t (Fin 189)) = Some ng /\
    blend (Some 5) 83 0 (blend_t (Fin 189)) = Some nb /\
    0 <= nr <= 255 /\ 0 <= ng <= 255 /\ 0 <= nb <= 255 /\
    rd (remapPixels [10; 120; 5; 255] None) 0 = Some nr /\
    rd (remapPixels [10; 120; 5; 255] None) 1 = Some ng /\
    rd (remapPixels [10; 120; 5; 255] None) 2 = Some nb.
Proof.
  apply (interpolation_stays_in_byte_range [10; 120; 5; 255] None 0 10 120 5 255 0 189).
  - repeat constructor; unfold is_byte; lia.
  - repeat split.
  - lia.
  - apply nearest_det. reflexivity.
  - reflexivity.
  - unfold THRESHOLD. lia.
Defined.

(** ** Tokens of the [hide] parameter that are not numbers (C3) *)

Lemma nan_Prim2SF (x : float) : PrimFloat.is_nan x = true -> Prim2SF x = S754_nan.
Proof. intros H. unfold Prim2SF. rewrite H. reflexivity. Qed.

Lemma SameValueZero_nan (y x : float) :
  PrimFloat.is_nan y = false -> PrimFloat.is_nan x = true ->
  JS.SameValueZero y x = false.
Proof.
  intros Hy Hx. unfold JS.SameValueZero. rewrite Hy, Hx.
  rewrite FloatAxioms.eqb_spec, (nan_Prim2SF x Hx).
  unfold SFeqb, SFcompare. destruct (Prim2SF y); reflexivity.
Qed.

Lemma existsb_not_nan (y : float) (l : list float) :
  PrimFloat.is_nan y = false ->
  existsb (JS.SameValueZero y) (filter not_nan l) = existsb (JS.SameValueZero y) l.
Proof.
  intros Hy. induction l as [|x l IH]; [reflexivity|].
  cbn [filter existsb]. unfold not_nan at 1.
  destruct (PrimFloat.is_nan x) eqn:Hx; cbn [negb existsb].
  - rewrite (SameValueZero_nan y x Hy Hx). exact IH.
  - rewrite IH. reflexivity.
Qed.

Lemma Set_add_not_nan (acc : HideSet) (x : float) :
  filter not_nan (Set_add acc x)
  = if not_nan x then Set_add (filter not_nan acc) x else filter not_nan acc.
Proof.
  unfold Set_add, not_nan at 2.
  destruct (PrimFloat.is_nan x) eqn:Hx; cbn [negb].
  - destruct (existsb (JS.SameValueZero x) acc); [reflexivity|].
    rewrite filter_app. cbn [filter]. unfold not_nan at 2. rewrite Hx.
    cbn [negb]. apply app_nil_r.
  - rewrite (existsb_not_nan x acc Hx).
    destruct (existsb (JS.SameValueZero x) acc); [reflexivity|].
    rewrite filter_app. cbn [filter]. unfold not_nan at 2. rewrite Hx. reflexivity.
Qed.

Lemma fold_Set_add_not_nan (l : list float) :
  forall acc,
    filter not_nan (fold_left Set_add l acc)
    = fold_left Set_add (filter not_nan l) (filter not_nan acc).
Proof.
  induction l as [|x l IH]; intros acc; [reflexivity|].
  cbn [fold_left filter]. rewrite IH, Set_add_not_nan.
  destruct (not_nan x); reflexivity.
Qed.

(** Dropping the [NaN]s before or after building the set is the same. *)
Lemma Set_of_not_nan (l : list float) :
  filter not_nan (Set_of l) = Set_of (filter not_nan l).
Proof. apply fold_Set_add_not_nan. Qed.

Lemma toF_index_not_nan (z : Z) : -1 <= z < 7 -> PrimFloat.is_nan (JS.toF z) = false.
Proof.
  intros H.
  assert (C : z = -1 \/ z = 0 \/ z = 1 \/ z = 2 \/ z = 3 \/ z = 4 \/ z = 5 \/ z = 6)
    by lia.
  repeat (destruct C as [->|C]; [reflexivity|]). subst. reflexivity.
Qed.

Lemma has_not_nan (hs : HideSet) (idx : Z) :
  -1 <= idx < 7 -> has (filter not_nan hs) idx = has hs idx.
Proof.
  intros H. unfold has. apply existsb_not_nan, toF_index_not_nan, H.
Qed.

Lemma pixel_loop_ext (step step' : nat -> bytes -> bytes) :
  (forall i d, step i d = step' i d) ->
  forall n i d, pixel_loop step n i d = pixel_loop step' n i d.
Proof.
  intros H n. induction n as [|n IH]; intros i d; [reflexivity|].
  cbn [pixel_loop]. rewrite H. apply IH.
Qed.

Lemma remapPixels_not_nan (data : bytes) (hs : HideSet) :
  remapPixels data (Some (filter not_nan hs)) = remapPixels data (Some hs).
Proof.
  unfold remapPixels. apply pixel_loop_ext. intros i d. unfold remap_step.
  pose proof (nearest_index_range (map src COLOR_MAP) (rd d i) (rd d (i + 1))
                (rd d (i + 2))) as Hidx.
  destruct (nearest _ _ _ _) as [bi bd]. cbn [fst] in Hidx.
  cbn [hidden]. rewrite has_not_nan by (simpl in Hidx; lia). reflexivity.
Qed.

Lemma filterDesigPixels_not_nan (data : bytes) (hs : HideSet) :
  filterDesigPixels data (filter not_nan hs) = filterDesigPixels data hs.
Proof.
  unfold filterDesigPixels. apply pixel_loop_ext. intros i d. unfold filter_step.
  pose proof (nearest_index_range DESIG_COLORS (rd d i) (rd d (i + 1))
                (rd d (i + 2))) as Hidx.
  destruct (nearest _ _ _ _) as [bi bd]. cbn [fst] in Hidx.
  rewrite has_not_nan by (simpl in Hidx; lia). reflexivity.
Qed.

Lemma remapPixels_empty_set (data : bytes) :
  remapPixels data (Some []) = remapPixels data None.
Proof. reflexivity. Qed.

Lemma filterDesigPixels_empty_set (data : bytes) : filterDesigPixels data [] = data.
Proof.
  unfold filterDesigPixels.
  assert (H : forall n i d, pixel_loop (filter_step []) n i d = d).
  { induction n as [|n IH]; intros i d; [reflexivity|].
    cbn [pixel_loop]. rewrite IH. unfold filter_step.
    destruct (rd d (i + 3)) as [[| |]|]; try reflexivity;
      destruct (nearest _ _ _ _) as [bi bd]; cbn [has existsb];
      rewrite andb_false_r; reflexivity. }
  apply H.
Qed.

Lemma map_filter_Number (toks : list string) :
  filter not_nan (map Num.Number toks)
  = map Num.Number (filter (fun t => not_nan (Num.Number t)) toks).
Proof.
  induction toks as [|t toks IH]; [reflexivity|].
  cbn [map filter]. destruct (not_nan (Num.Number t)); cbn [map]; rewrite IH; reflexivity.
Qed.

Lemma filter_all_nan (toks : list string) :
  (forall t, In t toks -> PrimFloat.is_nan (Num.Number t) = true) ->
  filter (fun t => not_nan (Num.Number t)) toks = [].
Proof.
  induction toks as [|t l IH]; intros Hall; [reflexivity|].
  cbn [filter]. unfold not_nan at 1. rewrite (Hall t) by (left; reflexivity).
  cbn [negb]. apply IH. intros t' Ht'. apply Hall. right. exact Ht'.
Qed.

(** C3, as stated, fails for empty tokens: [Number('')] is 0, so an empty
    token puts category 0 into the set. Adding an empty token to [hide=1]
    makes an exact green pixel (category 0) transparent instead of
    recoloured. *)
Lemma empty_token_counterexample :
  ~ (forall (hideStr : string) (data : bytes),
        hideStr <> EmptyString ->
        remapPixels data (parse_hide (hideStr ++ ","))
        = remapPixels data (parse_hide hideStr)).
Proof.
  intros H. specialize (H "1" [0; 128; 0; 255] ltac:(discriminate)).
  vm_compute in H. discriminate H.
Qed.

(** C3, amended. The tokens of a hide string that [Number] reads as [NaN]
    (alphabetic text, for one) have no effect on the pixel transforms: on
    every buffer [remapPixels] and [filterDesigPixels] act as with the set
    built from the other tokens alone, and as with no hide-set at all when
    every token is such a token. (An empty or blank token is not one of
    them: [Number] reads it as 0.) *)
Theorem nan_tokens_have_no_effect (hideStr : string) (hs : HideSet) (data : bytes) :
  parse_hide hideStr = Some hs ->
  remapPixels data (Some hs)
  = remapPixels data
      (Some (Set_of (map Num.Number
                       (filter (fun t => not_nan (Num.Number t))
                               (Str.split "," hideStr))))) /\
  filterDesigPixels data hs
  = filterDesigPixels data
      (Set_of (map Num.Number
                 (filter (fun t => not_nan (Num.Number t)) (Str.split "," hideStr)))) /\
  ((forall t, In t (Str.split "," hideStr) -> PrimFloat.is_nan (Num.Number t) = true) ->
   remapPixels data (Some hs) = remapPixels data None /\
   filterDesigPixels data hs = data).
Proof.
  unfold parse_hide. destruct (Str.is_empty hideStr); [discriminate|].
  intros H. inversion H as [Hhs]. clear H.
  rewrite <- map_filter_Number, <- Set_of_not_nan.
  rewrite remapPixels_not_nan, filterDesigPixels_not_nan.
  split; [reflexivity|]. split; [reflexivity|].
  intros Hall.
  assert (E : filter not_nan (Set_of (map Num.Number (Str.split "," hideStr))) = []).
  { rewrite Set_of_not_nan, map_filter_Number, (filter_all_nan _ Hall). reflexivity. }
  rewrite <- (remapPixels_not_nan data), <- (filterDesigPixels_not_nan data), E.
  split; [apply remapPixels_empty_set | apply filterDesigPixels_empty_set].
Qed.

Lemma nan_tokens_have_no_effect_witness :
  remapPixels [0; 128; 0; 255; 0; 0; 255; 255] (Some [PrimFloat.nan; 1%float])
  = remapPixels [0; 128; 0; 255; 0; 0; 255; 255] (Some [1%float]).
Proof.
  apply (proj1 (nan_tokens_have_no_effect "abc,1" [PrimFloat.nan; 1%float]
                  [0; 128; 0; 255; 0; 0; 255; 255] eq_refl)).
Defined.

(** * Part IV: properties of the tile cache *)

(** ** The map operations *)

Lemma map_get_in_keys (key : string) (m : Map) :
  map_get key m <> None <-> In key (keys m).
Proof.
  induction m as [|[k v] m IH]; simpl; [tauto|].
  destruct (String.eqb_spec k key) as [->|Hne].
  - split; [auto | discriminate].
  - rewrite IH. split; [auto | intros [H|H]; [congruence | exact H]].
Qed.

Lemma map_get_none (key : string) (m : Map) :
  map_get key m = None <-> ~ In key (keys m).
Proof.
  rewrite <- map_get_in_keys. destruct (map_get key m) as [e|].
  - split; [discriminate | intros H; exfalso; apply H; discriminate].
  - split; [intros _ H; apply H; reflexivity | reflexivity].
Qed.

Lemma map_delete_length (key : string) (m : Map) :
  (length (map_delete key m) <= length m)%nat.
Proof. apply filter_length_le. Qed.

Lemma map_delete_length_lt (key : string) (m : Map) :
  In key (keys m) -> (length (map_delete key m) < length m)%nat.
Proof.
  induction m as [|[k v] m IH]; simpl; [tauto|].
  destruct (String.eqb_spec k key) as [->|Hne]; simpl.
  - intros _. pose proof (map_delete_length key m). unfold map_delete in *. lia.
  - intros [H|H]; [congruence|]. specialize (IH H). unfold map_delete in *. lia.
Qed.

Lemma map_get_delete_same (key : string) (m : Map) :
  map_get key (map_delete key m) = None.
Proof.
  induction m as [|[k v] m IH]; simpl; [reflexivity|].
  destruct (String.eqb_spec k key) as [->|Hne]; simpl; [exact IH|].
  destruct (String.eqb_spec k key); [congruence | exact IH].
Qed.

Lemma map_get_delete_other (key k : string) (m : Map) :
  k <> key -> map_get k (map_delete key m) = map_get k m.
Proof.
  intros Hne. induction m as [|[k' v] m IH]; simpl; [reflexivity|].
  destruct (String.eqb_spec k' key) as [->|Hne']; simpl.
  - destruct (String.eqb_spec key k); [congruence | exact IH].
  - destruct (String.eqb_spec k' k); [reflexivity | exact IH].
Qed.

Lemma map_delete_absent (key : string) (m : Map) :
  ~ In key (keys m) -> map_delete key m = m.
Proof.
  induction m as [|[k v] m IH]; simpl; [reflexivity|].
  intros H. destruct (String.eqb_spec k key) as [->|Hne]; simpl; [tauto|].
  f_equal. apply IH. tauto.
Qed.

Lemma map_set_absent (key : string) (v : cache_entry) (m : Map) :
  map_get key m = None -> map_set key v m = (m ++ [(key, v)])%list.
Proof.
  induction m as [|[k x] m IH]; simpl; [reflexivity|].
  destruct (String.eqb_spec k key); [discriminate|].
  intros H. f_equal. apply IH, H.
Qed.

Lemma map_set_keys_present (key : string) (v : cache_entry) (m : Map) :
  In key (keys m) -> keys (map_set key v m) = keys m.
Proof.
  induction m as [|[k x] m IH]; simpl; [tauto|].
  destruct (String.eqb_spec k key) as [->|Hne]; simpl; [reflexivity|].
  intros [H|H]; [congruence|]. f_equal. apply IH, H.
Qed.

Lemma map_set_length (key : string) (v : cache_entry) (m : Map) :
  (length (map_set key v m) <= S (length m))%nat.
Proof.
  induction m as [|[k x] m IH]; simpl; [lia|].
  destruct (String.eqb k key); simpl; lia.
Qed.

Lemma map_get_set_same (key : string) (v : cache_entry) (m : Map) :
  map_get key (map_set key v m) = Some v.
Proof.
  induction m as [|[k x] m IH]; simpl.
  - rewrite String.eqb_refl. reflexivity.
  - destruct (String.eqb_spec k key) as [->|Hne]; simpl.
    + rewrite String.eqb_refl. reflexivity.
    + destruct (String.eqb_spec k key); [congruence | exact IH].
Qed.

Lemma map_get_set_other (key k : string) (v : cache_entry) (m : Map) :
  k <> key -> map_get k (map_set key v m) = map_get k m.
Proof.
  intros Hne. induction m as [|[k' x] m IH]; simpl.
  - destruct (String.eqb_spec key k); [congruence | reflexivity].
  - destruct (String.eqb_spec k' key) as [->|Hne']; simpl.
    + destruct (String.eqb_spec key k); [congruence | reflexivity].
    + destruct (String.eqb_spec k' k); [reflexivity | exact IH].
Qed.

Lemma keys_delete (key : string) (m : Map) :
  keys (map_delete key m) = filter (fun k => negb (String.eqb k key)) (keys m).
Proof.
  induction m as [|[k v] m IH]; simpl; [reflexivity|].
  destruct (String.eqb k key); simpl; [exact IH | f_equal; exact IH].
Qed.

Lemma NoDup_delete (key : string) (m : Map) :
  NoDup (keys m) -> NoDup (keys (map_delete key m)).
Proof. intros H. rewrite keys_delete. apply NoDup_filter, H. Qed.

Lemma NoDup_set (key : string) (v : cache_entry) (m : Map) :
  NoDup (keys m) -> NoDup (keys (map_set key v m)).
Proof.
  intros H. destruct (in_dec string_dec key (keys m)) as [Hin|Hout].
  - rewrite map_set_keys_present by assumption. exact H.
  - rewrite map_set_absent by (apply map_get_none; assumption).
    unfold keys. rewrite map_app. simpl.
    apply NoDup_app; [exact H | repeat constructor; simpl; tauto |].
    intros x Hx [<-|[]]. exact (Hout Hx).
Qed.

(** ** Invariants of the reachable caches (C4) *)

Lemma getCachedTile_inv (now : Z) (key : string) (c : Map) :
  cache_inv c -> cache_inv (snd (getCachedTile now key c)).
Proof.
  intros [Hnd Hlen]. unfold getCachedTile.
  destruct (map_get key c) as [e|] eqn:E; [|split; assumption].
  assert (Hin : In key (keys c)) by (apply map_get_in_keys; congruence).
  pose proof (map_delete_length_lt key c Hin) as Hlt.
  destruct (now - timestamp e >? TILE_CACHE_TTL); cbn [snd]; split.
  - apply NoDup_delete, Hnd.
  - lia.
  - apply NoDup_set, NoDup_delete, Hnd.
  - pose proof (map_set_length key e (map_delete key c)). lia.
Qed.

Lemma setCachedTile_inv (now : Z) (key : string) (buf : bytes) (c : Map) :
  cache_inv c -> cache_inv (setCachedTile now key buf c).
Proof.
  intros [Hnd Hlen]. unfold setCachedTile.
  destruct (Nat.leb_spec TILE_CACHE_MAX (length c)) as [Hfull|Hroom].
  - destruct c as [|[k0 e0] rest]; [simpl in Hfull; unfold TILE_CACHE_MAX in Hfull; lia|].
    cbn [map_first_key].
    assert (Hin : In k0 (keys ((k0, e0) :: rest))) by (left; reflexivity).
    pose proof (map_delete_length_lt k0 _ Hin) as Hlt.
    split.
    + apply NoDup_set, NoDup_delete, Hnd.
    + pose proof (map_set_length key (CacheEntry buf now)
                    (map_delete k0 ((k0, e0) :: rest))). lia.
  - split.
    + apply NoDup_set, Hnd.
    + pose proof (map_set_length key (CacheEntry buf now) c). lia.
Qed.

Lemma run_inv (ops : list cache_op) : cache_inv (run ops).
Proof.
  unfold run.
  assert (H : forall c, cache_inv c -> cache_inv (fold_left apply_op ops c)).
  { induction ops as [|o ops IH]; intros c Hc; simpl; [exact Hc|].
    apply IH. destruct o as [now key | now key buf]; simpl.
    - apply getCachedTile_inv, Hc.
    - apply setCachedTile_inv, Hc. }
  apply H. split; [constructor | simpl; lia].
Qed.

(** C4. After any sequence of [get] and [put] operations from the empty
    cache: the cache holds at most [TILE_CACHE_MAX = 2000] entries; a
    [get] returns bytes only from an entry of that key whose age is at most
    [TILE_CACHE_TTL]; on an entry older than that it returns nothing and
    deletes the entry (and nothing else); on a hit it moves the entry, as it
    is, to the end of the eviction order (the first entry is the one
    evicted); on an absent key it returns nothing and changes nothing. *)
Theorem cache_bounded_lazy_expiry_lru (ops : list cache_op) (now : Z) (key : string) :
  (length (run ops) <= 2000)%nat /\
  (forall buf, fst (getCachedTile now key (run ops)) = Some buf ->
     exists e, map_get key (run ops) = Some e /\ buffer e = buf /\
               now - timestamp e <= TILE_CACHE_TTL) /\
  (forall e, map_get key (run ops) = Some e ->
     now - timestamp e > TILE_CACHE_TTL ->
     getCachedTile now key (run ops) = (None, map_delete key (run ops)) /\
     map_get key (map_delete key (run ops)) = None /\
     forall k, k <> key ->
       map_get k (map_delete key (run ops)) = map_get k (run ops)) /\
  (forall e, map_get key (run ops) = Some e ->
     now - timestamp e <= TILE_CACHE_TTL ->
     getCachedTile now key (run ops)
     = (Some (buffer e), (map_delete key (run ops) ++ [(key, e)])%list)) /\
  (map_get key (run ops) = None ->
     getCachedTile now key (run ops) = (None, run ops)).
Proof.
  destruct (run_inv ops) as [Hnd Hlen].
  split; [exact Hlen|]. unfold getCachedTile.
  split; [|split; [|split]].
  - intros buf. destruct (map_get key (run ops)) as [e|]; [|discriminate].
    destruct (Z.gtb_spec (now - timestamp e) TILE_CACHE_TTL) as [Hold|Hfresh];
      cbn [fst]; [discriminate|].
    intros H; inversion H; subst. exists e. repeat split. lia.
  - intros e E Hold. rewrite E.
    destruct (Z.gtb_spec (now - timestamp e) TILE_CACHE_TTL); [|lia].
    repeat split.
    + apply map_get_delete_same.
    + intros k Hk. apply map_get_delete_other, Hk.
  - intros e E Hfresh. rewrite E.
    destruct (Z.gtb_spec (now - timestamp e) TILE_CACHE_TTL); [lia|].
    rewrite map_set_absent by apply map_get_delete_same. reflexivity.
  - intros E. rewrite E. reflexivity.
Qed.

(** ** Overwriting a cached key (C2) *)

Lemma to_uint_nonnil (n : nat) : Nat.to_uint n <> Decimal.Nil.
Proof.
  rewrite <- (DecimalNat.Unsigned.of_to n) at 1.
  rewrite DecimalNat.Unsigned.to_of. apply DecimalFacts.unorm_nonnil.
Qed.

Lemma tile_key_inj (a b : nat) : tile_key a = tile_key b -> a = b.
Proof.
  unfold tile_key. cbn [String.append]. intros H.
  injection H as H.
  apply (f_equal NilZero.uint_of_string) in H.
  rewrite !NilZero.usu in H by apply to_uint_nonnil.
  injection H as H. apply DecimalNat.Unsigned.to_uint_inj, H.
Qed.

Lemma fresh_entries_absent (n : nat) : map_get (tile_key n) (fresh_entries n) = None.
Proof.
  apply map_get_none. unfold keys, fresh_entries. rewrite map_map. cbn [fst].
  intros H. apply in_map_iff in H. destruct H as (i & Hi & Hin).
  apply tile_key_inj in Hi. apply in_seq in Hin. lia.
Qed.

Lemma run_puts (n : nat) :
  (n <= TILE_CACHE_MAX)%nat ->
  run (map (fun i => Put 0 (tile_key i) []) (seq 0 n)) = fresh_entries n.
Proof.
  unfold run. induction n as [|n IH]; intros Hn; [reflexivity|].
  rewrite seq_S, map_app, fold_left_app, IH by lia.
  cbn [map fold_left apply_op Nat.add]. unfold setCachedTile.
  assert (Hlen : length (fresh_entries n) = n).
  { unfold fresh_entries. rewrite length_map, length_seq. reflexivity. }
  rewrite Hlen. destruct (Nat.leb_spec TILE_CACHE_MAX n); [lia|].
  rewrite map_set_absent by apply fresh_entries_absent.
  unfold fresh_entries. rewrite seq_S, map_app. reflexivity.
Qed.

Lemma full_cache_entries : full_cache = fresh_entries TILE_CACHE_MAX.
Proof. apply run_puts. lia. Qed.

(** C2, as stated, fails at capacity: with 2000 entries cached, a [put] on the
    key inserted last (already present) evicts the oldest entry. *)
Lemma overwrite_at_capacity_counterexample :
  ~ (forall (c : Map) (now : Z) (key : string) (buf : bytes),
        NoDup (keys c) -> (length c <= TILE_CACHE_MAX)%nat ->
        In key (keys c) ->
        forall k, k <> key ->
          map_get k (setCachedTile now key buf c) = map_get k c).
Proof.
  intros H.
  specialize (H full_cache 1 (tile_key 1999) [7]).
  destruct (run_inv (map (fun n => Put 0 (tile_key n) []) (seq 0 TILE_CACHE_MAX)))
    as [Hnd Hlen].
  specialize (H Hnd Hlen).
  assert (Hin : In (tile_key 1999) (keys full_cache)).
  { rewrite full_cache_entries. unfold keys, fresh_entries.
    rewrite map_map. cbn [fst]. apply in_map, in_seq. unfold TILE_CACHE_MAX. lia. }
  specialize (H Hin (tile_key 0)).
  assert (Hne : tile_key 0 <> tile_key 1999) by (intros E; apply tile_key_inj in E; lia).
  specialize (H Hne).
  rewrite full_cache_entries in H.
  assert (E1 : map_get (tile_key 0)
                 (setCachedTile 1 (tile_key 1999) [7] (fresh_entries TILE_CACHE_MAX))
               = None) by (vm_compute; reflexivity).
  assert (E2 : map_get (tile_key 0) (fresh_entries TILE_CACHE_MAX)
               = Some (CacheEntry [] 0)) by (vm_compute; reflexivity).
  rewrite E1, E2 in H. discriminate H.
Qed.

(** C2, amended. A [put] on a key already present overwrites that key's entry,
    stamped with the current time. While the cache holds fewer than
    [TILE_CACHE_MAX] entries nothing is evicted: the keys and their order
    stay the same and every other entry is untouched. At [TILE_CACHE_MAX]
    entries the oldest entry is evicted first, although the key is not new:
    when the oldest key is another key it is removed (every entry besides
    these two is untouched); when it is the key itself, the key moves to the
    end of the order. *)
Theorem setCachedTile_overwrite
    (c : Map) (now : Z) (key : string) (buf : bytes) :
  NoDup (keys c) -> In key (keys c) ->
  map_get key (setCachedTile now key buf c) = Some (CacheEntry buf now) /\
  ((length c < TILE_CACHE_MAX)%nat ->
     keys (setCachedTile now key buf c) = keys c /\
     forall k, k <> key -> map_get k (setCachedTile now key buf c) = map_get k c) /\
  ((TILE_CACHE_MAX <= length c)%nat ->
     forall oldest rest, keys c = oldest :: rest ->
       (oldest <> key ->
          keys (setCachedTile now key buf c) = rest /\
          map_get oldest (setCachedTile now key buf c) = None) /\
       (oldest = key ->
          keys (setCachedTile now key buf c) = (rest ++ [key])%list) /\
       (forall k, k <> key -> k <> oldest ->
          map_get k (setCachedTile now key buf c) = map_get k c)).
Proof.
  intros Hnd Hin. unfold setCachedTile.
  split; [apply map_get_set_same|]. split.
  - intros Hroom. destruct (Nat.leb_spec TILE_CACHE_MAX (length c)); [lia|].
    split.
    + apply map_set_keys_present, Hin.
    + intros k Hk. apply map_get_set_other, Hk.
  - intros Hfull oldest rest Hkeys.
    destruct (Nat.leb_spec TILE_CACHE_MAX (length c)); [|lia].
    destruct c as [|[k0 e0] c']; [discriminate|].
    cbn [keys map fst] in Hkeys. inversion Hkeys; subst oldest rest.
    cbn [map_first_key].
    cbn [keys map fst] in Hnd. inversion Hnd as [|? ? Hnotin Hnd']; subst.
    assert (Hdel : map_delete k0 ((k0, e0) :: c') = c').
    { unfold map_delete. cbn [filter fst]. rewrite String.eqb_refl. cbn [negb].
      apply map_delete_absent, Hnotin. }
    rewrite Hdel. fold (keys c'). split; [|split].
    + intros Hne. split.
      * apply map_set_keys_present.
        destruct Hin as [E|Hin]; [cbn [fst] in E; congruence | exact Hin].
      * rewrite map_get_set_other by assumption.
        apply map_get_none, Hnotin.
    + intros ->. rewrite map_set_absent by (apply map_get_none, Hnotin).
      unfold keys. rewrite map_app. reflexivity.
    + intros k Hk Hk0. rewrite map_get_set_other by assumption.
      cbn [map_get]. destruct (String.eqb_spec k0 k); [congruence | reflexivity].
Qed.

Lemma setCachedTile_overwrite_witness :
  map_get (tile_key 1) (setCachedTile 5 (tile_key 1) [7] (run [Put 0 (tile_key 0) []; Put 0 (tile_key 1) []]))
  = Some (CacheEntry [7] 5) /\
  keys (setCachedTile 5 (tile_key 1) [7] (run [Put 0 (tile_key 0) []; Put 0 (tile_key 1) []]))
  = keys (run [Put 0 (tile_key 0) []; Put 0 (tile_key 1) []]).
Proof.
  destruct (setCachedTile_overwrite
              (run [Put 0 (tile_key 0) []; Put 0 (tile_key 1) []]) 5 (tile_key 1) [7])
    as (Hget & Hroom & _).
  - apply run_inv.
  - vm_compute. auto.
  - split; [exact Hget|]. apply Hroom. vm_compute. lia.
Defined.

(** * Part V: properties of the request handler *)

(** ** A failed transform on the miss path (C9) *)

(** C9. On the miss path of a plow or designation tile, when upstream answers
    200 with an image content type and the decode/transform/encode step
    throws, the client gets status 200 with exactly the upstream bytes as the
    body, and the cache holds those bytes under the canonical key [cleanUrl],
    stamped with the current time. *)
Theorem transform_failure_serves_raw_bytes
    (pathname_of utf8 : string -> string)
    (decode : bytes -> option (Z * Z * bytes)) (encode : Z -> Z -> bytes -> option bytes)
    (url : string) (proxyRes : upstream_response) (now : Z) (tileCache : Map) :
  isPlowTile (request_context pathname_of utf8 url)
  || isDesigTile (request_context pathname_of utf8 url) = true ->
  statusCode proxyRes = 200 ->
  Str.includes "image" (or_default (upstream_content_type proxyRes) EmptyString) = true ->
  transform decode encode (request_context pathname_of utf8 url)
            (upstream_body proxyRes) = None ->
  status (fst (on_upstream_response decode encode
                 (request_context pathname_of utf8 url) proxyRes now tileCache)) = 200 /\
  resp_body (fst (on_upstream_response decode encode
                    (request_context pathname_of utf8 url) proxyRes now tileCache))
  = upstream_body proxyRes /\
  map_get (cleanUrl (request_context pathname_of utf8 url))
          (snd (on_upstream_response decode encode
                  (request_context pathname_of utf8 url) proxyRes now tileCache))
  = Some (CacheEntry (upstream_body proxyRes) now).
Proof.
  intros Htile Hst Himg Hfail. unfold on_upstream_response.
  rewrite Himg, Hst, Htile, Hfail. cbn [negb orb andb Z.eqb Pos.eqb].
  rewrite andb_false_r. cbn [fst snd status resp_body].
  repeat split. unfold setCachedTile. apply map_get_set_same.
Qed.

Lemma transform_failure_serves_raw_bytes_witness :
  status (fst (on_upstream_response (fun _ => None) (fun _ _ _ => None)
                 (request_context (fun p => p) (fun x => x)
                                  "/api/highlight?layerName=VISITED&z=15&hide=1")
                 (Upstream 200 (Some "image/png") None [1; 2; 3]) 77 [])) = 200 /\
  resp_body (fst (on_upstream_response (fun _ => None) (fun _ _ _ => None)
                    (request_context (fun p => p) (fun x => x)
                                     "/api/highlight?layerName=VISITED&z=15&hide=1")
                    (Upstream 200 (Some "image/png") None [1; 2; 3]) 77 []))
  = [1; 2; 3] /\
  map_get (cleanUrl (request_context (fun p => p) (fun x => x)
                                     "/api/highlight?layerName=VISITED&z=15&hide=1"))
          (snd (on_upstream_response (fun _ => None) (fun _ _ _ => None)
                  (request_context (fun p => p) (fun x => x)
                                   "/api/highlight?layerName=VISITED&z=15&hide=1")
                  (Upstream 200 (Some "image/png") None [1; 2; 3]) 77 []))
  = Some (CacheEntry [1; 2; 3] 77).
Proof.
  apply (transform_failure_serves_raw_bytes (fun p => p) (fun x => x)
           (fun _ => None) (fun _ _ _ => None)
           "/api/highlight?layerName=VISITED&z=15&hide=1"
           (Upstream 200 (Some "image/png") None [1; 2; 3]) 77 []);
    reflexivity.
Defined.

(** ** Splitting, joining and serializing *)

Lemma all_chars_app (p : ascii -> bool) (x y : string) :
  all_chars p (x ++ y) = all_chars p x && all_chars p y.
Proof.
  induction x as [|a x IH]; [reflexivity|].
  cbn [String.append all_chars]. rewrite IH. apply andb_assoc.
Qed.

Lemma all_chars_weaken (p q : ascii -> bool) (s : string) :
  (forall a, p a = true -> q a = true) ->
  all_chars p s = true -> all_chars q s = true.
Proof.
  intros Hpq. induction s as [|a s IH]; [reflexivity|].
  cbn [all_chars]. intros H. apply andb_true_iff in H. destruct H as [Ha Hs].
  rewrite (Hpq a Ha), (IH Hs). reflexivity.
Qed.

Lemma split_first_app (c : ascii) (x y : string) :
  all_chars (is_not c) x = true ->
  Str.split_first c (x ++ String c y) = (x, Some y).
Proof.
  induction x as [|a x IH]; cbn [String.append Str.split_first all_chars]; intros H.
  - rewrite Ascii.eqb_refl. reflexivity.
  - apply andb_true_iff in H. destruct H as [Ha Hx]. unfold is_not in Ha.
    destruct (Ascii.eqb a c); [discriminate|]. rewrite (IH Hx). reflexivity.
Qed.

Lemma split_first_none (c : ascii) (x : string) :
  all_chars (is_not c) x = true -> Str.split_first c x = (x, None).
Proof.
  induction x as [|a x IH]; cbn [Str.split_first all_chars]; intros H; [reflexivity|].
  apply andb_true_iff in H. destruct H as [Ha Hx]. unfold is_not in Ha.
  destruct (Ascii.eqb a c); [discriminate|]. rewrite (IH Hx). reflexivity.
Qed.

Lemma split_nonempty (c : ascii) (s : string) : Str.split c s <> [].
Proof.
  destruct s as [|a s]; cbn [Str.split]; [discriminate|].
  destruct (Ascii.eqb a c); [discriminate|].
  destruct (Str.split c s); discriminate.
Qed.

Lemma split_app (c : ascii) (x y : string) :
  all_chars (is_not c) x = true ->
  Str.split c (x ++ String c y) = x :: Str.split c y.
Proof.
  induction x as [|a x IH]; cbn [String.append Str.split all_chars]; intros H.
  - rewrite Ascii.eqb_refl. reflexivity.
  - apply andb_true_iff in H. destruct H as [Ha Hx]. unfold is_not in Ha.
    destruct (Ascii.eqb a c); [discriminate|]. rewrite (IH Hx). reflexivity.
Qed.

Lemma split_none (c : ascii) (x : string) :
  all_chars (is_not c) x = true -> Str.split c x = [x].
Proof.
  induction x as [|a x IH]; cbn [Str.split all_chars]; intros H; [reflexivity|].
  apply andb_true_iff in H. destruct H as [Ha Hx]. unfold is_not in Ha.
  destruct (Ascii.eqb a c); [discriminate|]. rewrite (IH Hx). reflexivity.
Qed.

Lemma param_char_not_delim (a : ascii) :
  param_char a = true ->
  is_not "&" a = true /\ is_not "=" a = true /\ is_not "#" a = true
  /\ is_not "?" a = true.
Proof.
  destruct a as [[] [] [] [] [] [] [] []]; vm_compute; intros H;
    (discriminate H || (repeat split)).
Qed.

Lemma byte_serialize_chars (s : string) :
  all_chars param_char (Url.byte_serialize s) = true.
Proof.
  induction s as [|c s IH]; [reflexivity|].
  assert (H : exists p, Url.byte_serialize (String c s) = (p ++ Url.byte_serialize s)%string
                        /\ all_chars param_char p = true).
  { destruct c as [[] [] [] [] [] [] [] []];
      (eexists (String _ EmptyString); split; [reflexivity | reflexivity])
      || (eexists (String _ (String _ (String _ EmptyString)));
          split; [reflexivity | reflexivity]). }
  destruct H as (p & -> & Hp). rewrite all_chars_app, Hp, IH. reflexivity.
Qed.

Lemma byte_serialize_roundtrip (s : string) :
  Url.percent_decode (Url.plus_to_space (Url.byte_serialize s)) = s.
Proof.
  induction s as [|c s IH]; [reflexivity|].
  rewrite <- IH at 2.
  destruct c as [[] [] [] [] [] [] [] []]; reflexivity.
Qed.

Lemma byte_serialize_no (c : ascii) (s : string) :
  param_char c = false -> all_chars (is_not c) (Url.byte_serialize s) = true.
Proof.
  intros Hc. apply (all_chars_weaken param_char); [|apply byte_serialize_chars].
  intros a Ha. unfold is_not. destruct (Ascii.eqb_spec a c); [congruence | reflexivity].
Qed.

Lemma serialize_pair_no (c : ascii) (nv : string * string) :
  param_char c = false -> Ascii.eqb "=" c = false ->
  all_chars (is_not c) (serialize_pair nv) = true.
Proof.
  intros Hc He. unfold serialize_pair.
  rewrite !all_chars_app, !byte_serialize_no by assumption.
  cbn [all_chars andb]. unfold is_not. rewrite He. reflexivity.
Qed.

Lemma serialize_pair_not_empty (nv : string * string) :
  Str.is_empty (serialize_pair nv) = false.
Proof.
  unfold serialize_pair. destruct (Url.byte_serialize (fst nv)); reflexivity.
Qed.

Lemma parse_pair_serialized (utf8 : string -> string) (nv : string * string) :
  parse_pair utf8 (serialize_pair nv) = (utf8 (fst nv), utf8 (snd nv)).
Proof.
  unfold parse_pair, serialize_pair.
  change ("=" ++ Url.byte_serialize (snd nv))%string
    with (String "=" (Url.byte_serialize (snd nv))).
  rewrite split_first_app by (apply byte_serialize_no; reflexivity).
  unfold decode_component. rewrite !byte_serialize_roundtrip. reflexivity.
Qed.

Lemma split_join (ps : list string) :
  ps <> [] ->
  Forall (fun p => all_chars (is_not "&") p = true) ps ->
  Str.split "&" (Str.join "&" ps) = ps.
Proof.
  induction ps as [|p ps IH]; [congruence|]. intros _ Hall.
  inversion Hall as [|? ? Hp Hps]; subst.
  destruct ps as [|p' ps].
  - cbn [Str.join]. apply split_none, Hp.
  - change (Str.join "&" (p :: p' :: ps))
      with (p ++ String "&" (Str.join "&" (p' :: ps)))%string.
    rewrite split_app by exact Hp. f_equal. apply IH; [discriminate | exact Hps].
Qed.

Lemma all_chars_join (p : ascii -> bool) (ps : list string) :
  p "&"%char = true ->
  Forall (fun x => all_chars p x = true) ps ->
  all_chars p (Str.join "&" ps) = true.
Proof.
  intros Hamp. induction ps as [|x ps IH]; intros Hall; [reflexivity|].
  inversion Hall as [|? ? Hx Hps]; subst.
  destruct ps as [|y ps]; [exact Hx|].
  change (Str.join "&" (x :: y :: ps))
    with (x ++ String "&" (Str.join "&" (y :: ps)))%string.
  rewrite all_chars_app. cbn [all_chars]. rewrite Hx, Hamp, (IH Hps). reflexivity.
Qed.

(** Parsing a serialized parameter list gives the list back, each string
    having gone through [utf8] once more. *)
Lemma parse_serialized (utf8 : string -> string) (l : list (string * string)) :
  parse_query utf8 (serialize_params l)
  = map (fun nv => (utf8 (fst nv), utf8 (snd nv))) l.
Proof.
  destruct l as [|nv0 l0]; [reflexivity|].
  set (l := nv0 :: l0). unfold parse_query, serialize_params.
  change (map (fun nv => Url.byte_serialize (fst nv) ++ "=" ++ Url.byte_serialize (snd nv))%string l)
    with (map serialize_pair l).
  rewrite split_join.
  - assert (F : filter (fun x => negb (Str.is_empty x)) (map serialize_pair l)
                = map serialize_pair l).
    { clear. induction l as [|nv l IH]; [reflexivity|].
      cbn [map filter]. rewrite serialize_pair_not_empty. cbn [negb]. rewrite IH.
      reflexivity. }
    rewrite F, map_map. apply map_ext. intros nv. apply parse_pair_serialized.
  - discriminate.
  - apply Forall_forall. intros x Hx. apply in_map_iff in Hx.
    destruct Hx as (nv & <- & _). apply serialize_pair_no; reflexivity.
Qed.

Lemma append_assoc (x y z : string) : ((x ++ y) ++ z = x ++ (y ++ z))%string.
Proof.
  induction x as [|a x IH]; [reflexivity|].
  cbn [String.append]. rewrite IH. reflexivity.
Qed.

Lemma append_empty_r (x : string) : (x ++ "")%string = x.
Proof.
  induction x as [|a x IH]; [reflexivity|].
  cbn [String.append]. rewrite IH. reflexivity.
Qed.

(** The query of a URL made of a prefix free of [?] and [#] and the search
    string of a parameter list. *)
Lemma raw_query_search (prefix : string) (l : list (string * string)) :
  no_delims prefix = true ->
  raw_query (prefix ++ search_of l)
  = match l with
    | [] => None
    | _ :: _ => Some (serialize_params l)
    end.
Proof.
  intros Hp. unfold no_delims in Hp.
  assert (Hq : all_chars (is_not "?") prefix = true).
  { revert Hp. apply all_chars_weaken. intros a H.
    apply andb_true_iff in H. tauto. }
  assert (Hh : all_chars (is_not "#") prefix = true).
  { revert Hp. apply all_chars_weaken. intros a H.
    apply andb_true_iff in H. tauto. }
  unfold raw_query, without_fragment. destruct l as [|nv0 l0].
  - cbn [search_of]. rewrite append_empty_r.
    rewrite (split_first_none "#" prefix Hh). cbn [fst].
    rewrite (split_first_none "?" prefix Hq). reflexivity.
  - cbn [search_of].
    change ("?" ++ serialize_params (nv0 :: l0))%string
      with (String "?" (serialize_params (nv0 :: l0))).
    rewrite (split_first_none "#" (prefix ++ String "?" (serialize_params (nv0 :: l0)))).
    + cbn [fst]. rewrite (split_first_app "?" prefix _ Hq). reflexivity.
    + rewrite all_chars_app, Hh. cbn [all_chars andb].
      unfold serialize_params.
      apply all_chars_join; [reflexivity|].
      apply Forall_forall. intros x Hx. apply in_map_iff in Hx.
      destruct Hx as (nv & <- & _).
      apply (serialize_pair_no "#" nv); reflexivity.
Qed.

Lemma searchParams_sequences (utf8 : string -> string) (url : string) :
  searchParams utf8 url
  = map (parse_pair utf8) (filter (fun x => negb (Str.is_empty x)) (sequences url)).
Proof.
  unfold searchParams, sequences, parse_query.
  destruct (raw_query url); reflexivity.
Qed.

Lemma params_delete_map (utf8 : string -> string) (l : list string) :
  params_delete "hide" (map (parse_pair utf8) l)
  = map (parse_pair utf8) (filter (fun q => negb (is_hide utf8 q)) l).
Proof.
  unfold params_delete, is_hide. induction l as [|q l IH]; [reflexivity|].
  cbn [map filter].
  destruct (String.eqb (fst (parse_pair utf8 q)) "hide"); cbn [negb map];
    rewrite IH; reflexivity.
Qed.

Lemma filter_comm {A : Type} (p q : A -> bool) (l : list A) :
  filter p (filter q l) = filter q (filter p l).
Proof.
  induction l as [|x l IH]; [reflexivity|].
  cbn [filter]. destruct (p x) eqn:Hp, (q x) eqn:Hq; cbn [filter];
    rewrite ?Hp, ?Hq, IH; reflexivity.
Qed.

(** The parameters a request forwards: those of its URL except [hide]. *)
Lemma forwarded_params (utf8 : string -> string) (url : string) :
  params_delete "hide" (searchParams utf8 url)
  = map (parse_pair utf8)
        (filter (fun x => negb (Str.is_empty x))
                (filter (fun q => negb (is_hide utf8 q)) (sequences url))).
Proof.
  rewrite searchParams_sequences, params_delete_map, filter_comm. reflexivity.
Qed.

(** ** The [hide] parameter stays local (C8) *)

(** Apart from the hide-set, the contexts of two such requests agree. *)
Lemma request_context_shared
    (pathname_of utf8 : string -> string) (u1 u2 : string) :
  same_but_hide utf8 u1 u2 ->
  cleanUrl (request_context pathname_of utf8 u1)
  = cleanUrl (request_context pathname_of utf8 u2) /\
  targetUrl (request_context pathname_of utf8 u1)
  = targetUrl (request_context pathname_of utf8 u2) /\
  isPlowTile (request_context pathname_of utf8 u1)
  = isPlowTile (request_context pathname_of utf8 u2) /\
  isDesigTile (request_context pathname_of utf8 u1)
  = isDesigTile (request_context pathname_of utf8 u2).
Proof.
  intros [Hsame_path Hsame_seq].
  cbn [request_context targetUrl cleanUrl isPlowTile isDesigTile].
  assert (E : params_delete "hide" (searchParams utf8 u1)
              = params_delete "hide" (searchParams utf8 u2)).
  { rewrite !forwarded_params, Hsame_seq. reflexivity. }
  rewrite <- E, <- Hsame_path. repeat split.
Qed.

(** C8. Two request URLs that differ only in their [hide] parameters get
    the same upstream target URL and the same cache key ([cleanUrl]); the
    upstream URL, read back as a URL, has no parameter named [hide]; and the
    cache probes of the two requests leave the cache in the same state and
    miss together, towards the same upstream URL. *)
Theorem hide_parameter_is_local
    (pathname_of utf8 : string -> string) (u1 u2 : string) :
  (forall x, utf8 x = "hide" -> x = "hide") ->
  no_delims (pathname_of (raw_path u1)) = true ->
  same_but_hide utf8 u1 u2 ->
  targetUrl (request_context pathname_of utf8 u1)
  = targetUrl (request_context pathname_of utf8 u2) /\
  cleanUrl (request_context pathname_of utf8 u1)
  = cleanUrl (request_context pathname_of utf8 u2) /\
  Forall (fun nv => fst nv <> "hide")
         (searchParams utf8 (targetUrl (request_context pathname_of utf8 u1))) /\
  (forall decode encode now tileCache,
     snd (on_request pathname_of utf8 decode encode u1 now tileCache)
     = snd (on_request pathname_of utf8 decode encode u2 now tileCache) /\
     forall upstream_url,
       fst (on_request pathname_of utf8 decode encode u1 now tileCache)
       = Miss upstream_url ->
       fst (on_request pathname_of utf8 decode encode u2 now tileCache)
       = Miss upstream_url).
Proof.
  intros Hutf8 Hpath Hsame.
  destruct (request_context_shared pathname_of utf8 u1 u2 Hsame)
    as (Hclean & Htarget & Hplow & Hdesig).
  split; [exact Htarget|]. split; [exact Hclean|]. split.
  - cbn [request_context targetUrl cleanUrl].
    set (l := params_delete "hide" (searchParams utf8 u1)).
    assert (Hl : Forall (fun nv => fst nv <> "hide") l).
    { apply Forall_forall. intros nv Hnv. unfold l, params_delete in Hnv.
      apply filter_In in Hnv. destruct Hnv as [_ Hnv].
      destruct (String.eqb_spec (fst nv) "hide"); [discriminate | assumption]. }
    unfold searchParams.
    rewrite <- !append_assoc.
    rewrite raw_query_search.
    + destruct l as [|nv0 l0] eqn:El; [constructor|].
      rewrite <- El in *. rewrite parse_serialized.
      apply Forall_forall. intros nv Hnv. apply in_map_iff in Hnv.
      destruct Hnv as (nv' & <- & Hin). cbn [fst].
      rewrite Forall_forall in Hl. intros Habs. apply (Hl nv' Hin), Hutf8, Habs.
    + unfold no_delims. rewrite all_chars_app.
      fold (no_delims (pathname_of (raw_path u1))).
      rewrite Hpath. reflexivity.
  - intros decode encode now tileCache. unfold on_request.
    rewrite <- Hplow, <- Hdesig, <- Hclean, <- Htarget.
    destruct (isPlowTile (request_context pathname_of utf8 u1)
              || isDesigTile (request_context pathname_of utf8 u1));
      [|split; [reflexivity | intros ? H; exact H]].
    destruct (getCachedTile now (cleanUrl (request_context pathname_of utf8 u1)) tileCache)
      as [[rawCached|] tileCache'].
    + destruct (transform decode encode (request_context pathname_of utf8 u1) rawCached),
               (transform decode encode (request_context pathname_of utf8 u2) rawCached);
        (split; [reflexivity | intros ? H; discriminate H]).
    + split; [reflexivity | intros ? H; exact H].
Qed.

Lemma hide_parameter_is_local_witness :
  targetUrl (request_context (fun p => p) (fun x => x)
               "/api/highlight?layerName=VISITED&z=15&hide=1,2")
  = targetUrl (request_context (fun p => p) (fun x => x)
                 "/api/highlight?layerName=VISITED&%68ide=4&z=15") /\
  cleanUrl (request_context (fun p => p) (fun x => x)
              "/api/highlight?layerName=VISITED&z=15&hide=1,2")
  = cleanUrl (request_context (fun p => p) (fun x => x)
                "/api/highlight?layerName=VISITED&%68ide=4&z=15") /\
  Forall (fun nv => fst nv <> "hide")
         (searchParams (fun x => x)
            (targetUrl (request_context (fun p => p) (fun x => x)
                          "/api/highlight?layerName=VISITED&z=15&hide=1,2"))).
Proof.
  destruct (hide_parameter_is_local (fun p => p) (fun x => x)
              "/api/highlight?layerName=VISITED&z=15&hide=1,2"
              "/api/highlight?layerName=VISITED&%68ide=4&z=15")
    as (Htarget & Hclean & Hnone & _).
  - intros x H. exact H.
  - reflexivity.
  - split; reflexivity.
  - exact (conj Htarget (conj Hclean Hnone)).
Defined.

(** * Part VI: further properties of the code *)

(** ** Reads and stores across an append *)

Lemma rd_cons (x : Z) (d : bytes) (j : nat) : rd (x :: d) (S j) = rd d j.
Proof. reflexivity. Qed.

Lemma store_cons (x : Z) (d : bytes) (j : nat) (v : option Z) :
  store (x :: d) (S j) v = x :: store d j v.
Proof. reflexivity. Qed.

Lemma rd_app_l (d1 d2 : bytes) (j : nat) :
  (j < length d1)%nat -> rd (d1 ++ d2)%list j = rd d1 j.
Proof. intros H. unfold rd. apply nth_error_app1, H. Qed.

Lemma store_app_l (d1 d2 : bytes) (j : nat) (v : option Z) :
  (j < length d1)%nat -> store (d1 ++ d2)%list j v = (store d1 j v ++ d2)%list.
Proof.
  unfold store. generalize (JS.ToUint8 v) as z. intros z.
  revert j; induction d1 as [|x d1 IH]; intros j Hj; simpl in Hj; [lia|].
  destruct j as [|j]; simpl; [reflexivity|].
  rewrite IH by lia. reflexivity.
Qed.

Lemma store_beyond (d : bytes) (j : nat) (v : option Z) :
  rd d j = None -> store d j v = d.
Proof.
  unfold store, rd. generalize (JS.ToUint8 v) as z. intros z.
  revert j; induction d as [|x d IH]; intros j Hj; [reflexivity|].
  destruct j as [|j]; simpl in *; [discriminate|].
  rewrite IH by assumption. reflexivity.
Qed.

(** ** The pixel loop on a buffer made of two parts *)

Section PixelLoopApp.

Variable step : nat -> bytes -> bytes.

Hypothesis step_shift : forall i x d, step (S i) (x :: d) = x :: step i d.

Hypothesis step_app :
  forall i d1 d2, (i + 4 <= length d1)%nat -> step i (d1 ++ d2)%list = (step i d1 ++ d2)%list.

Hypothesis step_length : forall i d, length (step i d) = length d.

Lemma pixel_loop_shift1 (n i : nat) (x : Z) (d : bytes) :
  pixel_loop step n (S i) (x :: d) = x :: pixel_loop step n i d.
Proof.
  revert i d; induction n as [|n IH]; intros i d; [reflexivity|].
  cbn [pixel_loop]. rewrite step_shift. apply (IH (i + 4)%nat).
Qed.

Lemma pixel_loop_shift (l : bytes) (n i : nat) (d : bytes) :
  pixel_loop step n (length l + i) (l ++ d)%list = (l ++ pixel_loop step n i d)%list.
Proof.
  induction l as [|x l IH]; [reflexivity|].
  cbn [length Nat.add app]. rewrite pixel_loop_shift1, IH. reflexivity.
Qed.

Lemma pixel_loop_app (n i : nat) (d1 d2 : bytes) :
  (i + 4 * n <= length d1)%nat ->
  pixel_loop step n i (d1 ++ d2)%list = (pixel_loop step n i d1 ++ d2)%list.
Proof.
  revert i d1; induction n as [|n IH]; intros i d1 H; [reflexivity|].
  cbn [pixel_loop]. rewrite step_app by lia.
  apply IH. rewrite step_length. lia.
Qed.

Lemma pixel_loop_split (n1 n2 i : nat) (d : bytes) :
  pixel_loop step (n1 + n2) i d
  = pixel_loop step n2 (i + 4 * n1) (pixel_loop step n1 i d).
Proof.
  revert i d; induction n1 as [|n1 IH]; intros i d.
  - cbn [Nat.add pixel_loop]. replace (i + 4 * 0)%nat with i by lia. reflexivity.
  - cbn [Nat.add pixel_loop]. rewrite IH.
    replace (i + 4 + 4 * n1)%nat with (i + 4 * S n1)%nat by lia. reflexivity.
Qed.

Lemma pixel_loop_whole_app (m : nat) (d1 d2 : bytes) :
  length d1 = (4 * m)%nat ->
  pixel_loop step (iterations (length (d1 ++ d2)%list)) 0 (d1 ++ d2)%list
  = (pixel_loop step (iterations (length d1)) 0 d1
     ++ pixel_loop step (iterations (length d2)) 0 d2)%list.
Proof.
  intros Hm.
  assert (E1 : iterations (length d1) = m).
  { unfold iterations. rewrite Hm.
    replace (4 * m + 3)%nat with (3 + m * 4)%nat by lia.
    rewrite Nat.div_add by lia. reflexivity. }
  assert (E2 : iterations (length (d1 ++ d2)%list) = (m + iterations (length d2))%nat).
  { unfold iterations. rewrite length_app, Hm.
    replace (4 * m + length d2 + 3)%nat with (length d2 + 3 + m * 4)%nat by lia.
    rewrite Nat.div_add by lia. lia. }
  rewrite E1, E2, pixel_loop_split, pixel_loop_app by lia.
  cbn [Nat.add].
  assert (El : length (pixel_loop step m 0 d1) = (4 * m)%nat).
  { rewrite pixel_loop_length by exact step_length. exact Hm. }
  rewrite <- El.
  rewrite <- (Nat.add_0_r (length (pixel_loop step m 0 d1))).
  apply pixel_loop_shift.
Qed.

End PixelLoopApp.

Lemma remap_step_shift (hs : option HideSet) (i : nat) (x : Z) (d : bytes) :
  remap_step hs (S i) (x :: d) = x :: remap_step hs i d.
Proof.
  unfold remap_step. cbn [Nat.add]. rewrite !rd_cons.
  destruct (rd d (i + 3)) as [[| |]|];
    try reflexivity;
    destruct (nearest _ _ _ _) as [bi bd];
    destruct (below_threshold bd); try reflexivity;
    destruct (hidden hs bi); try (destruct (is_zero_dist bd));
    rewrite ?store_cons; reflexivity.
Qed.

Lemma filter_step_shift (hs : HideSet) (i : nat) (x : Z) (d : bytes) :
  filter_step hs (S i) (x :: d) = x :: filter_step hs i d.
Proof.
  unfold filter_step. cbn [Nat.add]. rewrite !rd_cons.
  destruct (rd d (i + 3)) as [[| |]|];
    try reflexivity;
    destruct (nearest _ _ _ _) as [bi bd];
    destruct (below_threshold bd && has hs bi);
    rewrite ?store_cons; reflexivity.
Qed.

Lemma remap_step_app (hs : option HideSet) (i : nat) (d1 d2 : bytes) :
  (i + 4 <= length d1)%nat ->
  remap_step hs i (d1 ++ d2)%list = (remap_step hs i d1 ++ d2)%list.
Proof.
  intros H. unfold remap_step. rewrite !rd_app_l by lia.
  destruct (rd d1 (i + 3)) as [[| |]|];
    try reflexivity;
    destruct (nearest _ _ _ _) as [bi bd];
    destruct (below_threshold bd); try reflexivity;
    destruct (hidden hs bi); try (destruct (is_zero_dist bd));
    repeat (rewrite store_app_l by (rewrite ?length_store; lia)); reflexivity.
Qed.

Lemma filter_step_app (hs : HideSet) (i : nat) (d1 d2 : bytes) :
  (i + 4 <= length d1)%nat ->
  filter_step hs i (d1 ++ d2)%list = (filter_step hs i d1 ++ d2)%list.
Proof.
  intros H. unfold filter_step. rewrite !rd_app_l by lia.
  destruct (rd d1 (i + 3)) as [[| |]|];
    try reflexivity;
    destruct (nearest _ _ _ _) as [bi bd];
    destruct (below_threshold bd && has hs bi);
    repeat (rewrite store_app_l by (rewrite ?length_store; lia)); reflexivity.
Qed.

Lemma remapPixels_app (d1 d2 : bytes) (hs : option HideSet) :
  (length d1 mod 4 = 0)%nat ->
  remapPixels (d1 ++ d2)%list hs = (remapPixels d1 hs ++ remapPixels d2 hs)%list.
Proof.
  intros Hm.
  assert (Hlen : length d1 = (4 * (length d1 / 4))%nat).
  { pose proof (Nat.div_mod_eq (length d1) 4). lia. }
  apply (pixel_loop_whole_app (remap_step hs) (remap_step_shift hs)
           (remap_step_app hs) (remap_step_length hs) _ d1 d2 Hlen).
Qed.

Lemma filterDesigPixels_app (d1 d2 : bytes) (hs : HideSet) :
  (length d1 mod 4 = 0)%nat ->
  filterDesigPixels (d1 ++ d2)%list hs
  = (filterDesigPixels d1 hs ++ filterDesigPixels d2 hs)%list.
Proof.
  intros Hm.
  assert (Hlen : length d1 = (4 * (length d1 / 4))%nat).
  { pose proof (Nat.div_mod_eq (length d1) 4). lia. }
  apply (pixel_loop_whole_app (filter_step hs) (filter_step_shift hs)
           (filter_step_app hs) (filter_step_length hs) _ d1 d2 Hlen).
Qed.

(** X1. Both transformers work pixel by pixel: on a buffer made of a whole
    number of pixels followed by a second buffer, the result is the first
    part transformed followed by the second part transformed. *)
Theorem transformers_distribute_over_append
    (d1 d2 : bytes) (hideSet : option HideSet) (hideSet' : HideSet) :
  (length d1 mod 4 = 0)%nat ->
  remapPixels (d1 ++ d2)%list hideSet
  = (remapPixels d1 hideSet ++ remapPixels d2 hideSet)%list /\
  filterDesigPixels (d1 ++ d2)%list hideSet'
  = (filterDesigPixels d1 hideSet' ++ filterDesigPixels d2 hideSet')%list.
Proof.
  intros Hm. split; [apply remapPixels_app | apply filterDesigPixels_app]; exact Hm.
Qed.

Lemma transformers_distribute_over_append_witness :
  remapPixels ([0; 128; 0; 255] ++ [0; 0; 255; 255; 7])%list (Some [1%float])
  = (remapPixels [0; 128; 0; 255] (Some [1%float])
     ++ remapPixels [0; 0; 255; 255; 7] (Some [1%float]))%list /\
  filterDesigPixels ([0; 128; 0; 255] ++ [0; 0; 255; 255; 7])%list [1%float]
  = (filterDesigPixels [0; 128; 0; 255] [1%float]
     ++ filterDesigPixels [0; 0; 255; 255; 7] [1%float])%list.
Proof.
  apply (transformers_distribute_over_append [0; 128; 0; 255] [0; 0; 255; 255; 7]
           (Some [1%float]) [1%float]).
  reflexivity.
Defined.

(** ** Composing designation filters *)

Lemma has_app (hs1 hs2 : HideSet) (idx : Z) :
  has (hs1 ++ hs2)%list idx = has hs1 idx || has hs2 idx.
Proof. unfold has. apply existsb_app. Qed.

Lemma filter_step_eq (hs : HideSet) (i : nat) (d : bytes) :
  filter_step hs i d =
  if transparent (rd d (i + 3)) then d
  else if below_threshold (snd (nearest DESIG_COLORS (rd d i) (rd d (i + 1)) (rd d (i + 2))))
          && has hs (fst (nearest DESIG_COLORS (rd d i) (rd d (i + 1)) (rd d (i + 2))))
       then store d (i + 3) (Some 0)
       else d.
Proof.
  unfold filter_step.
  destruct (rd d (i + 3)) as [[| |]|]; try reflexivity;
    destruct (nearest _ _ _ _) as [bi bd]; reflexivity.
Qed.

Lemma filter_step_twice (hs1 hs2 : HideSet) (i : nat) (d : bytes) :
  filter_step hs2 i (filter_step hs1 i d) = filter_step (hs1 ++ hs2)%list i d.
Proof.
  rewrite (filter_step_eq hs1 i d), (filter_step_eq (hs1 ++ hs2)%list i d), has_app.
  destruct (transparent (rd d (i + 3))) eqn:Ht.
  - rewrite filter_step_eq, Ht. reflexivity.
  - destruct (below_threshold _) eqn:Hb; cbn [andb orb];
      [destruct (has hs1 _) eqn:H1; cbn [orb]|];
      try (rewrite filter_step_eq, Ht, Hb; reflexivity).
    destruct (rd d (i + 3)) as [a|] eqn:Ea.
    + rewrite filter_step_eq, (rd_store_same _ _ (Some 0) _ Ea). reflexivity.
    + rewrite (store_beyond d (i + 3) _ Ea), filter_step_eq, Ea.
      rewrite (store_beyond d (i + 3) _ Ea).
      cbn [transparent]. destruct (_ && _); reflexivity.
Qed.

Lemma bytes_ext (d d' : bytes) : (forall j, rd d j = rd d' j) -> d = d'.
Proof.
  revert d'; induction d as [|x d IH]; intros [|y d'] H.
  - reflexivity.
  - specialize (H 0%nat). discriminate.
  - specialize (H 0%nat). discriminate.
  - pose proof (H 0%nat) as H0. cbn in H0. inversion H0; subst. f_equal.
    apply IH. intros j. apply (H (S j)).
Qed.

Lemma filterDesigPixels_twice (data : bytes) (hs1 hs2 : HideSet) :
  filterDesigPixels (filterDesigPixels data hs1) hs2
  = filterDesigPixels data (hs1 ++ hs2)%list.
Proof.
  apply bytes_ext. intros j.
  pose proof (Nat.div_mod_eq j 4) as Ej.
  pose proof (Nat.mod_upper_bound j 4) as Hk.
  rewrite Ej.
  rewrite !filterDesigPixels_pixel by lia.
  rewrite <- filter_step_twice.
  apply filter_step_local; [|lia].
  intros j' Hj'.
  replace j' with (4 * (j / 4) + (j' - 4 * (j / 4)))%nat by lia.
  apply filterDesigPixels_pixel. lia.
Qed.

(** X2. Filtering a designation tile twice is filtering it once with the
    categories of both passes; in particular a second pass with the same
    hide-set changes nothing. *)
Theorem filterDesigPixels_composes (data : bytes) (hs1 hs2 : HideSet) :
  filterDesigPixels (filterDesigPixels data hs1) hs2
  = filterDesigPixels data (hs1 ++ hs2)%list /\
  filterDesigPixels (filterDesigPixels data hs1) hs1 = filterDesigPixels data hs1.
Proof.
  split; [apply filterDesigPixels_twice|].
  rewrite filterDesigPixels_twice. unfold filterDesigPixels.
  apply pixel_loop_ext. intros i d.
  rewrite !filter_step_eq, has_app, orb_diag. reflexivity.
Qed.

(** ** The alpha channel under [remapPixels] *)

Lemma remap_step_alpha (hs : option HideSet) (i : nat) (d : bytes) :
  rd (remap_step hs i d) (i + 3) = rd d (i + 3) \/
  rd (remap_step hs i d) (i + 3) = Some 0.
Proof.
  unfold remap_step.
  destruct (rd d (i + 3)) as [a|] eqn:Ea.
  - destruct a as [|a|a]; [left; exact Ea | |];
      (destruct (nearest _ _ _ _) as [bi bd];
       destruct (below_threshold bd); [|left; exact Ea];
       destruct (hidden hs bi);
       [ right; exact (rd_store_same _ _ (Some 0) _ Ea)
       | left; destruct (is_zero_dist bd);
         rewrite !rd_store_other by lia; exact Ea ]).
  - left.
    destruct (nearest _ _ _ _) as [bi bd];
      destruct (below_threshold bd); [|exact Ea];
      destruct (hidden hs bi); [|destruct (is_zero_dist bd)];
      rewrite ?rd_store_other by lia; try exact Ea.
    rewrite rd_store, Nat.eqb_refl, Ea. reflexivity.
Qed.

Lemma remap_step_alpha_kept (i : nat) (d : bytes) :
  rd (remap_step None i d) (i + 3) = rd d (i + 3).
Proof.
  unfold remap_step. cbn [hidden].
  destruct (rd d (i + 3)) as [[| |]|] eqn:Ea;
    try exact Ea;
    destruct (nearest _ _ _ _) as [bi bd];
    destruct (below_threshold bd); try exact Ea;
    destruct (is_zero_dist bd);
    rewrite !rd_store_other by lia; exact Ea.
Qed.

(** X3. [remapPixels] never makes a pixel more opaque: every alpha byte of
    the result is the input's or 0; without a hide-set no alpha byte changes
    at all. *)
Theorem remapPixels_alpha (data : bytes) (hideSet : option HideSet) (p : nat) :
  (rd (remapPixels data hideSet) (4 * p + 3) = rd data (4 * p + 3) \/
   rd (remapPixels data hideSet) (4 * p + 3) = Some 0) /\
  rd (remapPixels data None) (4 * p + 3) = rd data (4 * p + 3).
Proof.
  rewrite !remapPixels_pixel by lia.
  split; [apply remap_step_alpha | apply remap_step_alpha_kept].
Qed.

(** ** Byte buffers stay byte buffers *)








(** ** The blend factor *)

Lemma blend_factor_check :
  range_all (Z.to_nat 11999) 1 (fun d => proper_fraction (raw_t d)) = true.
Proof. vm_compute. reflexivity. Qed.

(** X5. On the interpolation branch ([0 < bestDist < 12000]) the clamp
    [Math.max(0, _)] is never active, and the blend factor is a Number
    strictly between 0 and 1. *)
Theorem blend_factor_is_a_proper_fraction (d : Z) :
  0 < d < THRESHOLD ->
  blend_t (Fin d) = (1 - PrimFloat.sqrt (JS.toF d) / 110)%float /\
  (0 <? blend_t (Fin d))%float = true /\
  (blend_t (Fin d) <? 1)%float = true.
Proof.
  intros Hd.
  pose proof (range_all_spec _ _ _ blend_factor_check d) as H.
  unfold THRESHOLD in Hd.
  specialize (H ltac:(lia)). unfold proper_fraction in H.
  apply andb_true_iff in H. destruct H as [H H1].
  apply andb_true_iff in H. destruct H as [Hn H0].
  apply negb_true_iff in Hn.
  assert (E : blend_t (Fin d) = raw_t d).
  { unfold blend_t, JS.Math_max. fold (raw_t d).
    change (PrimFloat.is_nan 0) with false.
    rewrite Hn, H0. reflexivity. }
  rewrite E. auto.
Qed.

Lemma blend_factor_is_a_proper_fraction_witness :
  blend_t (Fin 189) = (1 - PrimFloat.sqrt (JS.toF 189) / 110)%float /\
  (0 <? blend_t (Fin 189))%float = true /\
  (blend_t (Fin 189) <? 1)%float = true.
Proof. apply (blend_factor_is_a_proper_fraction 189). unfold THRESHOLD. lia. Defined.

(** ** The nearest-colour search *)

(** X6. On a complete pixel and a palette that is not empty the search
    returns the first index at minimum squared distance, with that distance;
    with an [undefined] channel (a trailing partial pixel) every comparison
    fails and it returns index -1 and [Infinity]. *)
Theorem nearest_is_first_minimum (pal : list rgb) :
  (pal <> [] ->
   forall r g b : Z, exists idx d,
     nearest pal (Some r) (Some g) (Some b) = (idx, Fin d) /\
     first_nearest pal r g b idx d) /\
  (forall r g b : option Z,
     r = None \/ g = None \/ b = None ->
     nearest pal r g b = (-1, Infinity)).
Proof.
  split.
  - intros Hpal r g b. apply nearest_spec, Hpal.
  - intros r g b H. apply nearest_from_undefined, H.
Qed.

(** ** The one-argument [remapPixels] *)

Lemma earlier_remap_step (i : nat) (d : bytes) :
  Earlier.remap_step i d = remap_step None i d.
Proof. reflexivity. Qed.

(** X7. [remapPixels(data, null)] is the one-argument [remapPixels(data)]
    of the earlier revision: without a hide-set the added parameter changes
    nothing. *)
Theorem remapPixels_without_hide_is_earlier (data : bytes) :
  remapPixels data None = Earlier.remapPixels data.
Proof.
  unfold remapPixels, Earlier.remapPixels.
  apply pixel_loop_ext. intros i d. symmetry. apply earlier_remap_step.
Qed.

(** ** A trailing partial pixel *)

Lemma remap_step_three (hs : option HideSet) (r g b a : Z) :
  a <> 0 ->
  remap_step hs 0 [r; g; b] = removelast (remap_step hs 0 [r; g; b; a]).
Proof.
  intros Ha. unfold remap_step. cbn [rd nth_error Nat.add].
  assert (E : forall X Y : bytes, match a with 0 => X | _ => Y end = Y)
    by (destruct a; congruence).
  rewrite E.
  destruct (nearest _ _ _ _) as [bi bd].
  destruct (below_threshold bd); [|reflexivity].
  destruct (hidden hs bi); [reflexivity|].
  destruct (is_zero_dist bd); reflexivity.
Qed.

(** X8. A buffer whose length is not a multiple of 4 ends in a partial
    pixel. [remapPixels] leaves one or two trailing bytes as they are; three
    trailing bytes (R, G, B without alpha) are treated as an opaque pixel:
    they come out as the R, G, B of that pixel with any alpha other than 0. *)
Theorem remapPixels_trailing_partial_pixel (d1 : bytes) (hideSet : option HideSet) :
  (length d1 mod 4 = 0)%nat ->
  (forall x, remapPixels (d1 ++ [x])%list hideSet = (remapPixels d1 hideSet ++ [x])%list) /\
  (forall x y,
     remapPixels (d1 ++ [x; y])%list hideSet = (remapPixels d1 hideSet ++ [x; y])%list) /\
  (forall r g b a, a <> 0 ->
     remapPixels (d1 ++ [r; g; b])%list hideSet
     = removelast (remapPixels (d1 ++ [r; g; b; a])%list hideSet)).
Proof.
  intros Hm. split; [|split].
  - intros x. rewrite remapPixels_app by exact Hm. reflexivity.
  - intros x y. rewrite remapPixels_app by exact Hm. reflexivity.
  - intros r g b a Ha. rewrite !remapPixels_app by exact Hm.
    rewrite removelast_app.
    + f_equal. apply (remap_step_three hideSet r g b a Ha).
    + intros Habs. apply (f_equal (@length Z)) in Habs.
      rewrite remapPixels_length in Habs. discriminate Habs.
Qed.

Lemma remapPixels_trailing_partial_pixel_witness :
  (forall x, remapPixels ([0; 128; 0; 255] ++ [x])%list None
             = (remapPixels [0; 128; 0; 255] None ++ [x])%list) /\
  (forall x y, remapPixels ([0; 128; 0; 255] ++ [x; y])%list None
               = (remapPixels [0; 128; 0; 255] None ++ [x; y])%list) /\
  (forall r g b a, a <> 0 ->
     remapPixels ([0; 128; 0; 255] ++ [r; g; b])%list None
     = removelast (remapPixels ([0; 128; 0; 255] ++ [r; g; b; a])%list None)).
Proof.
  apply (remapPixels_trailing_partial_pixel [0; 128; 0; 255] None). reflexivity.
Defined.

(** ** Membership in the parsed hide-set *)

Lemma Pos_compare_cont_Eq (m1 m2 : positive) :
  Pos.compare_cont Eq m1 m2 = Eq -> m1 = m2.
Proof. intros H. apply Pos.compare_eq. exact H. Qed.

Lemma SFeqb_class (s1 s2 : spec_float) :
  SFeqb s1 s2 = true <->
  s1 <> S754_nan /\
  match s1 with S754_zero _ => S754_zero false | s => s end
  = match s2 with S754_zero _ => S754_zero false | s => s end.
Proof.
  unfold SFeqb, SFcompare.
  destruct s1 as [z1|i1| |n1 m1 e1], s2 as [z2|i2| |n2 m2 e2];
    try (split; [discriminate | intros [_ H]; discriminate H]);
    try (split; [discriminate | intros [H _]; congruence]).
  - split; [split; [discriminate | reflexivity] | reflexivity].
  - destruct i2; (split; [discriminate | intros [_ H]; discriminate H]).
  - destruct n2; (split; [discriminate | intros [_ H]; discriminate H]).
  - destruct i1; (split; [discriminate | intros [_ H]; discriminate H]).
  - destruct i1, i2;
      (split; [intros H; first [discriminate H | split; [discriminate | reflexivity]]
              | intros [_ H]; first [discriminate H | reflexivity]]).
  - destruct i1; (split; [discriminate | intros [_ H]; discriminate H]).
  - destruct n1; (split; [discriminate | intros [_ H]; discriminate H]).
  - destruct i2; (split; [discriminate | intros [_ H]; discriminate H]).
  - destruct n1, n2;
      try (split; [discriminate | intros [_ H]; discriminate H]).
    + destruct (Z.compare_spec e1 e2) as [He|He|He];
        try (split; [discriminate | intros [_ H]; inversion H; lia]).
      subst e2. destruct (Pos.compare_cont Eq m1 m2) eqn:Hc;
        try (split; [discriminate | intros [_ H]; inversion H; subst;
                     rewrite Pos.compare_cont_refl in Hc; discriminate Hc]).
      apply Pos_compare_cont_Eq in Hc. subst.
      split; [split; [discriminate | reflexivity] | reflexivity].
    + destruct (Z.compare_spec e1 e2) as [He|He|He];
        try (split; [discriminate | intros [_ H]; inversion H; lia]).
      subst e2. destruct (Pos.compare_cont Eq m1 m2) eqn:Hc;
        try (split; [discriminate | intros [_ H]; inversion H; subst;
                     rewrite Pos.compare_cont_refl in Hc; discriminate Hc]).
      apply Pos_compare_cont_Eq in Hc. subst.
      split; [split; [discriminate | reflexivity] | reflexivity].
Qed.

Lemma is_nan_Prim2SF (x : float) :
  PrimFloat.is_nan x = true <-> Prim2SF x = S754_nan.
Proof.
  unfold PrimFloat.is_nan. rewrite negb_true_iff, FloatAxioms.eqb_spec.
  pose proof (SFeqb_class (Prim2SF x) (Prim2SF x)) as H.
  destruct (SFeqb (Prim2SF x) (Prim2SF x)).
  - split; [discriminate|]. intros E. destruct (proj1 H eq_refl) as [Hn _]. contradiction.
  - split; [intros _|reflexivity].
    destruct (Prim2SF x) eqn:E; try reflexivity;
      (assert (F : false = true) by (apply H; split; [discriminate | reflexivity]);
       discriminate F).
Qed.

Lemma SameValueZero_class (x y : float) :
  JS.SameValueZero x y = true <-> svz_class x = svz_class y.
Proof.
  unfold JS.SameValueZero, svz_class.
  rewrite orb_true_iff, andb_true_iff, FloatAxioms.eqb_spec, SFeqb_class,
          !is_nan_Prim2SF.
  destruct (Prim2SF x) eqn:Ex, (Prim2SF y) eqn:Ey;
    split;
    try (intros [[_ H] | [H1 H2]]; first [exact H | discriminate H1 | discriminate H2 | reflexivity]);
    try (intros H; first [discriminate H
                         | right; split; reflexivity
                         | left; split; [discriminate | exact H]]).
Qed.

Lemma has_class (hs : HideSet) (y : float) :
  existsb (JS.SameValueZero y) hs = true <-> In (svz_class y) (map svz_class hs).
Proof.
  rewrite existsb_exists, in_map_iff. split.
  - intros (a & Ha & H). exists a. apply SameValueZero_class in H. auto.
  - intros (a & H & Ha). exists a. split; [exact Ha|].
    apply SameValueZero_class. auto.
Qed.

Lemma Set_add_class (acc : HideSet) (x : float) (c : spec_float) :
  In c (map svz_class (Set_add acc x)) <->
  In c (map svz_class acc) \/ c = svz_class x.
Proof.
  unfold Set_add. destruct (existsb (JS.SameValueZero x) acc) eqn:E.
  - apply has_class in E. split; [auto|]. intros [H | ->]; assumption.
  - rewrite map_app, in_app_iff. cbn [map In]. intuition auto.
Qed.

Lemma fold_Set_add_class (l : list float) (c : spec_float) :
  forall acc,
    In c (map svz_class (fold_left Set_add l acc)) <->
    In c (map svz_class acc) \/ In c (map svz_class l).
Proof.
  induction l as [|x l IH]; intros acc; cbn [fold_left map In].
  - tauto.
  - rewrite IH, Set_add_class. intuition auto.
Qed.

Lemma has_Set_of (l : list float) (idx : Z) :
  has (Set_of l) idx = existsb (JS.SameValueZero (JS.toF idx)) l.
Proof.
  apply eq_iff_eq_true. unfold has, Set_of.
  rewrite !has_class, fold_Set_add_class. cbn [map In]. tauto.
Qed.

Lemma fold_Set_add_length (l : list float) :
  forall acc, (length acc <= length (fold_left Set_add l acc))%nat.
Proof.
  induction l as [|x l IH]; intros acc; cbn [fold_left]; [lia|].
  etransitivity; [|apply IH].
  unfold Set_add. destruct (existsb _ acc); [lia|].
  rewrite length_app. lia.
Qed.

Lemma Set_of_nonempty (l : list float) : l <> [] -> (0 < length (Set_of l))%nat.
Proof.
  destruct l as [|x l]; [congruence|]. intros _.
  unfold Set_of. cbn [fold_left].
  pose proof (fold_Set_add_length l (Set_add [] x)) as H.
  change (length (Set_add [] x)) with 1%nat in H. lia.
Qed.

(** X9. A category is hidden exactly when one of the comma-separated tokens
    of the [hide] parameter converts to its index: building the [Set] drops
    repeated values but no member. *)
Theorem hidden_iff_a_token_is_the_index (hideStr : string) (idx : Z) :
  hideStr <> EmptyString ->
  hidden (parse_hide hideStr) idx
  = existsb (fun tok => JS.SameValueZero (JS.toF idx) (Num.Number tok))
            (Str.split "," hideStr).
Proof.
  intros Hne. unfold parse_hide.
  destruct hideStr as [|c s]; [congruence|]. cbn [Str.is_empty hidden].
  rewrite has_Set_of. generalize (Str.split "," (String c s)) as toks.
  induction toks as [|t toks IH]; [reflexivity|].
  cbn [map existsb]. rewrite IH. reflexivity.
Qed.

Lemma hidden_iff_a_token_is_the_index_witness :
  hidden (parse_hide "2, 0x2,1") 2
  = existsb (fun tok => JS.SameValueZero (JS.toF 2) (Num.Number tok))
            (Str.split "," "2, 0x2,1").
Proof. apply (hidden_iff_a_token_is_the_index "2, 0x2,1" 2). discriminate. Defined.

Lemma Number_numeral (n : nat) :
  (n < 7)%nat ->
  JS.SameValueZero (JS.toF (Z.of_nat n)) (Num.Number (numeral n)) = true.
Proof.
  intros H.
  do 7 (destruct n as [|n]; [vm_compute; reflexivity|]). lia.
Qed.

(** X10. Listing the decimal index of a category among the comma-separated
    tokens of the [hide] parameter hides that category, whatever the other
    tokens are: this holds for each of the indices 0 to 6 that the two
    palettes use. *)
Theorem listed_index_is_hidden (hideStr : string) (n : nat) :
  (n < 7)%nat ->
  In (numeral n) (Str.split "," hideStr) ->
  hidden (parse_hide hideStr) (Z.of_nat n) = true.
Proof.
  intros Hn Hin.
  destruct hideStr as [|c s].
  - cbn in Hin. destruct Hin as [Habs|[]].
    do 7 (destruct n as [|n]; [discriminate Habs|]). lia.
  - unfold parse_hide. cbn [Str.is_empty hidden].
    rewrite has_Set_of. apply existsb_exists.
    exists (Num.Number (numeral n)). split.
    + apply in_map, Hin.
    + apply Number_numeral, Hn.
Qed.

Lemma listed_index_is_hidden_witness :
  hidden (parse_hide "abc,5,,1") (Z.of_nat 5) = true.
Proof.
  apply (listed_index_is_hidden "abc,5,,1" 5).
  - lia.
  - cbn. auto.
Defined.

(** ** Designation tiles in the handler *)

(** X11. What the handler does with a designation tile: without a [hide]
    parameter (or with an empty one) there is no hide-set and the tile bytes
    pass through as they are, whatever the codec would do with them; with
    one, the tile goes through [filterDesigTile], the parsed hide-set never
    being empty. *)
Theorem designation_tile_transform
    (pathname_of utf8 : string -> string)
    (decode : bytes -> option (Z * Z * bytes)) (encode : Z -> Z -> bytes -> option bytes)
    (url : string) (inputBuf : bytes) :
  isDesigTile (request_context pathname_of utf8 url) = true ->
  transform decode encode (request_context pathname_of utf8 url) inputBuf
  = match hideSet (request_context pathname_of utf8 url) with
    | Some hs => filterDesigTile decode encode inputBuf hs
    | None => Some inputBuf
    end /\
  (hideSet (request_context pathname_of utf8 url) = None
   <-> hideStr_of utf8 url = EmptyString) /\
  hideSet (request_context pathname_of utf8 url) <> Some [].
Proof.
  intros Hd.
  assert (Hp : isPlowTile (request_context pathname_of utf8 url) = false).
  { cbn [request_context isDesigTile isPlowTile] in *.
    apply andb_true_iff in Hd. destruct Hd as [_ Hd].
    apply negb_true_iff in Hd. exact Hd. }
  unfold transform. rewrite Hp. cbn [request_context hideSet].
  unfold parse_hide.
  destruct (hideStr_of utf8 url) as [|c s] eqn:E; cbn [Str.is_empty].
  - split; [reflexivity|]. split; [tauto | discriminate].
  - assert (Hl : (0 < length (Set_of (map Num.Number (Str.split "," (String c s)))))%nat).
    { apply Set_of_nonempty. pose proof (split_nonempty "," (String c s)) as Hs.
      destruct (Str.split "," (String c s)); [congruence | discriminate]. }
    remember (Set_of (map Num.Number (Str.split "," (String c s)))) as hs eqn:Ehs.
    clear Ehs. split; [|split].
    + apply Nat.ltb_lt in Hl. rewrite Hl. reflexivity.
    + split; discriminate.
    + intros Habs. inversion Habs as [Hnil]. rewrite Hnil in Hl. cbn in Hl. lia.
Qed.

Lemma designation_tile_transform_witness :
  transform (fun _ => None) (fun _ _ _ => None)
    (request_context (fun p => p) (fun x => x) "/api/highlight?layerName=SNOW_DESIG")
    [1; 2; 3]
  = Some [1; 2; 3].
Proof.
  apply (designation_tile_transform (fun p => p) (fun x => x) (fun _ => None)
           (fun _ _ _ => None) "/api/highlight?layerName=SNOW_DESIG" [1; 2; 3]).
  reflexivity.
Defined.

(** ** Storing, then looking up *)

(** X12. A lookup right after a store, whatever the cache held before (also
    at capacity): the stored bytes come back when the lookup is at most the
    TTL later than the store; otherwise nothing comes back and the entry is
    gone. *)
Theorem put_then_get
    (c : Map) (now now' : Z) (key : string) (buf : bytes) :
  fst (getCachedTile now' key (setCachedTile now key buf c))
  = (if now' - now >? TILE_CACHE_TTL then None else Some buf) /\
  (now' - now > TILE_CACHE_TTL ->
   map_get key (snd (getCachedTile now' key (setCachedTile now key buf c))) = None).
Proof.
  unfold getCachedTile, setCachedTile.
  rewrite map_get_set_same. cbn [timestamp buffer].
  destruct (Z.gtb_spec (now' - now) TILE_CACHE_TTL); split; try reflexivity.
  - intros _. apply map_get_delete_same.
  - lia.
Qed.

(** ** Expiry counts from the store *)

Lemma lookup_keeps_entry (now : Z) (k key : string) (c : Map) (e : cache_entry) :
  (map_get key c = None \/ map_get key c = Some e) ->
  map_get key (snd (getCachedTile now k c)) = None \/
  map_get key (snd (getCachedTile now k c)) = Some e.
Proof.
  intros H. unfold getCachedTile.
  destruct (String.eqb_spec k key) as [->|Hne].
  - destruct (map_get key c) as [e'|] eqn:E; [|left; exact E].
    destruct (now - timestamp e' >? TILE_CACHE_TTL); cbn [snd].
    + left. apply map_get_delete_same.
    + right. rewrite map_get_set_same. destruct H as [H|H]; congruence.
  - destruct (map_get k c) as [e'|] eqn:E; [|exact H].
    destruct (now - timestamp e' >? TILE_CACHE_TTL); cbn [snd].
    + rewrite map_get_delete_other by congruence. exact H.
    + rewrite map_get_set_other, map_get_delete_other by congruence. exact H.
Qed.

Lemma lookups_keep_entry (gets : list (Z * string)) (key : string) (e : cache_entry) :
  forall c,
    (map_get key c = None \/ map_get key c = Some e) ->
    map_get key (lookups gets c) = None \/ map_get key (lookups gets c) = Some e.
Proof.
  unfold lookups. induction gets as [|g gets IH]; intros c H; [exact H|].
  cbn [map fold_left apply_op]. apply IH, lookup_keeps_entry, H.
Qed.

(** X13. A hit does not renew an entry: however many lookups (of any keys, at
    any times) follow a store at time [now], a lookup of the key later than
    [now] plus the TTL returns nothing. *)
Theorem hits_do_not_extend_lifetime
    (c : Map) (now now' : Z) (key : string) (buf : bytes) (gets : list (Z * string)) :
  now' - now > TILE_CACHE_TTL ->
  fst (getCachedTile now' key (lookups gets (setCachedTile now key buf c))) = None.
Proof.
  intros H.
  destruct (lookups_keep_entry gets key (CacheEntry buf now)
              (setCachedTile now key buf c)) as [E|E].
  - right. unfold setCachedTile. apply map_get_set_same.
  - unfold getCachedTile. rewrite E. reflexivity.
  - unfold getCachedTile. rewrite E. cbn [timestamp].
    destruct (Z.gtb_spec (now' - now) TILE_CACHE_TTL); [reflexivity | lia].
Qed.

Lemma hits_do_not_extend_lifetime_witness :
  fst (getCachedTile 300002 "k"
         (lookups [(100000, "k"); (200000, "j"); (300000, "k")]
                  (setCachedTile 1 "k" [7] [])))
  = None.
Proof.
  apply (hits_do_not_extend_lifetime [] 1 300002 "k" [7]
           [(100000, "k"); (200000, "j"); (300000, "k")]).
  reflexivity.
Defined.

(** ** Eviction *)

Lemma map_delete_head (k : string) (e : cache_entry) (rest : Map) :
  ~ In k (keys rest) -> map_delete k ((k, e) :: rest) = rest.
Proof.
  intros H. unfold map_delete. cbn [filter fst].
  rewrite String.eqb_refl. cbn [negb]. apply map_delete_absent, H.
Qed.

(** X14. Storing a key that is not cached puts it at the newest position;
    below capacity nothing else changes, and at capacity exactly the oldest
    entry (the first in insertion order) is dropped. *)
Theorem new_key_evicts_the_oldest
    (c : Map) (now : Z) (key : string) (buf : bytes) :
  NoDup (keys c) -> ~ In key (keys c) ->
  setCachedTile now key buf c
  = ((if (TILE_CACHE_MAX <=? length c)%nat then tl c else c)
     ++ [(key, CacheEntry buf now)])%list.
Proof.
  intros Hnd Hnew. unfold setCachedTile.
  destruct (TILE_CACHE_MAX <=? length c)%nat eqn:Hfull.
  - destruct c as [|[k e] rest]; [reflexivity|].
    cbn [map_first_key tl]. cbn [keys map fst] in Hnd, Hnew.
    inversion Hnd as [|? ? Hk Hrest]; subst.
    rewrite map_delete_head by exact Hk.
    apply map_set_absent, map_get_none. intros Hin. apply Hnew. right. exact Hin.
  - apply map_set_absent, map_get_none, Hnew.
Qed.

Lemma new_key_evicts_the_oldest_witness :
  setCachedTile 9 "c" [3] [("a", CacheEntry [1] 0); ("b", CacheEntry [2] 1)]
  = ((if (TILE_CACHE_MAX <=? 2)%nat
      then [("b", CacheEntry [2] 1)]
      else [("a", CacheEntry [1] 0); ("b", CacheEntry [2] 1)])
     ++ [("c", CacheEntry [3] 9)])%list.
Proof.
  apply (new_key_evicts_the_oldest
           [("a", CacheEntry [1] 0); ("b", CacheEntry [2] 1)] 9 "c" [3]).
  - repeat constructor; cbn; intuition discriminate.
  - cbn; intuition discriminate.
Defined.

(** X15. A hit protects an entry from the next eviction: when the oldest
    entry of a cache at capacity is looked up (and has not expired), storing
    a new key drops the second oldest entry instead, and the entry that was
    hit is kept, now just before the new one. *)
Theorem hit_protects_from_eviction
    (k0 k1 : string) (e0 e1 : cache_entry) (rest : Map)
    (now1 now2 : Z) (key : string) (buf : bytes) :
  NoDup (keys ((k0, e0) :: (k1, e1) :: rest)) ->
  (TILE_CACHE_MAX <= length ((k0, e0) :: (k1, e1) :: rest))%nat ->
  now1 - timestamp e0 <= TILE_CACHE_TTL ->
  ~ In key (keys ((k0, e0) :: (k1, e1) :: rest)) ->
  setCachedTile now2 key buf
    (snd (getCachedTile now1 k0 ((k0, e0) :: (k1, e1) :: rest)))
  = (rest ++ [(k0, e0); (key, CacheEntry buf now2)])%list.
Proof.
  intros Hnd Hfull Hfresh Hnew.
  cbn [keys map fst] in Hnd, Hnew. fold (keys rest) in Hnd, Hnew.
  inversion Hnd as [|? ? Hk0 Hnd1]; subst.
  inversion Hnd1 as [|? ? Hk1 Hnd2]; subst.
  cbn [In] in Hk0, Hnew.
  unfold getCachedTile. cbn [map_get]. rewrite String.eqb_refl.
  destruct (Z.gtb_spec (now1 - timestamp e0) TILE_CACHE_TTL); [lia|]. cbn [snd].
  rewrite map_delete_head by (cbn [keys map fst In]; fold (keys rest); tauto).
  rewrite map_set_absent
    by (apply map_get_none; cbn [keys map fst In]; fold (keys rest); tauto).
  unfold setCachedTile.
  assert (Hlen : (TILE_CACHE_MAX <=? length (((k1, e1) :: rest) ++ [(k0, e0)])%list)%nat = true).
  { apply Nat.leb_le. rewrite length_app. cbn [length] in *. lia. }
  rewrite Hlen. cbn [app map_first_key].
  rewrite map_delete_head.
  - rewrite map_set_absent.
    + rewrite <- app_assoc. reflexivity.
    + apply map_get_none. unfold keys. rewrite map_app, in_app_iff.
      cbn [map fst In]. fold (keys rest). intuition congruence.
  - unfold keys. rewrite map_app, in_app_iff.
    cbn [map fst In]. fold (keys rest). intuition congruence.
Qed.

Lemma tile_key_NoDup (l : list nat) : NoDup l -> NoDup (map tile_key l).
Proof.
  induction 1 as [|x l Hx Hl IH]; cbn [map]; constructor; [|exact IH].
  intros Hin. apply in_map_iff in Hin. destruct Hin as (y & Hy & Hin).
  apply tile_key_inj in Hy. subst. contradiction.
Qed.

Lemma hit_protects_from_eviction_witness :
  setCachedTile 7 "/api/new" [1]
    (snd (getCachedTile 5 (tile_key 0)
            ((tile_key 0, CacheEntry [] 0) :: (tile_key 1, CacheEntry [] 0)
             :: map (fun i => (tile_key i, CacheEntry [] 0)) (seq 2 1998))))
  = (map (fun i => (tile_key i, CacheEntry [] 0)) (seq 2 1998)
     ++ [(tile_key 0, CacheEntry [] 0); ("/api/new", CacheEntry [1] 7)])%list.
Proof.
  assert (K : keys ((tile_key 0, CacheEntry [] 0) :: (tile_key 1, CacheEntry [] 0)
                    :: map (fun i => (tile_key i, CacheEntry [] 0)) (seq 2 1998))
              = map tile_key (seq 0 2000)).
  { change ((tile_key 0, CacheEntry [] 0) :: (tile_key 1, CacheEntry [] 0)
            :: map (fun i => (tile_key i, CacheEntry [] 0)) (seq 2 1998))
      with (map (fun i => (tile_key i, CacheEntry [] 0)) (seq 0 2000)).
    unfold keys. rewrite map_map. reflexivity. }
  apply (hit_protects_from_eviction (tile_key 0) (tile_key 1) (CacheEntry [] 0)
           (CacheEntry [] 0) (map (fun i => (tile_key i, CacheEntry [] 0)) (seq 2 1998))
           5 7 "/api/new" [1]).
  - rewrite K. apply tile_key_NoDup, seq_NoDup.
  - cbn [length]. rewrite length_map, length_seq. unfold TILE_CACHE_MAX. lia.
  - cbn [timestamp]. unfold TILE_CACHE_TTL. lia.
  - rewrite K. intros Hin. apply in_map_iff in Hin. destruct Hin as (i & Hi & _).
    discriminate Hi.
Defined.

(** ** What a lookup can return *)

Lemma Forall_map_delete (P : string * cache_entry -> Prop) (key : string) (c : Map) :
  Forall P c -> Forall P (map_delete key c).
Proof.
  intros H. apply Forall_forall. intros kv Hin.
  apply filter_In in Hin. rewrite Forall_forall in H. apply H, Hin.
Qed.

Lemma Forall_map_set (P : string * cache_entry -> Prop) (key : string)
    (v : cache_entry) (c : Map) :
  P (key, v) -> Forall P c -> Forall P (map_set key v c).
Proof.
  intros Hv H. induction H as [|[k x] rest Hx Hrest IH]; cbn [map_set].
  - constructor; [exact Hv | constructor].
  - destruct (String.eqb_spec k key) as [->|Hne]; constructor; auto.
Qed.

Lemma map_get_In (key : string) (c : Map) (e : cache_entry) :
  map_get key c = Some e -> In (key, e) c.
Proof.
  induction c as [|[k x] rest IH]; cbn [map_get]; [discriminate|].
  destruct (String.eqb_spec k key) as [->|Hne]; intros H.
  - inversion H; subst. left. reflexivity.
  - right. apply IH, H.
Qed.

Lemma Forall_getCachedTile (P : string * cache_entry -> Prop) (now : Z)
    (key : string) (c : Map) :
  Forall P c -> Forall P (snd (getCachedTile now key c)).
Proof.
  intros H. unfold getCachedTile.
  destruct (map_get key c) as [e|] eqn:E; [|exact H].
  destruct (now - timestamp e >? TILE_CACHE_TTL); cbn [snd].
  - apply Forall_map_delete, H.
  - apply Forall_map_set; [|apply Forall_map_delete, H].
    rewrite Forall_forall in H. apply H, map_get_In, E.
Qed.

Lemma Forall_setCachedTile (P : string * cache_entry -> Prop) (now : Z)
    (key : string) (buf : bytes) (c : Map) :
  P (key, CacheEntry buf now) -> Forall P c -> Forall P (setCachedTile now key buf c).
Proof.
  intros Hv H. unfold setCachedTile. apply Forall_map_set; [exact Hv|].
  destruct (TILE_CACHE_MAX <=? length c)%nat; [|exact H].
  destruct (map_first_key c); [apply Forall_map_delete|]; exact H.
Qed.

Lemma run_put_by (ops : list cache_op) :
  forall (pre : list cache_op) (c : Map),
    Forall (put_by pre) c ->
    Forall (put_by (pre ++ ops)%list) (fold_left apply_op ops c).
Proof.
  induction ops as [|o ops IH]; intros pre c H.
  - rewrite app_nil_r. exact H.
  - cbn [fold_left].
    replace (pre ++ o :: ops)%list with ((pre ++ [o]) ++ ops)%list
      by (rewrite <- app_assoc; reflexivity).
    apply IH.
    assert (Hw : Forall (put_by (pre ++ [o])%list) c).
    { revert H. apply Forall_impl. intros kv Hkv. unfold put_by in *.
      apply in_or_app. left. exact Hkv. }
    destruct o as [now key|now key buf]; cbn [apply_op].
    + apply Forall_getCachedTile, Hw.
    + apply Forall_setCachedTile; [|exact Hw].
      unfold put_by. cbn [fst snd timestamp buffer].
      apply in_or_app. right. left. reflexivity.
Qed.

(** X16. Over every history of cache operations from the empty cache, a
    lookup returns only bytes that were stored under that same key, by a
    store no older than the TTL. *)
Theorem cache_returns_what_was_put
    (ops : list cache_op) (now : Z) (key : string) (buf : bytes) :
  fst (getCachedTile now key (run ops)) = Some buf ->
  exists t, In (Put t key buf) ops /\ now - t <= TILE_CACHE_TTL.
Proof.
  intros H. unfold getCachedTile in H.
  destruct (map_get key (run ops)) as [e|] eqn:E; [|discriminate H].
  destruct (Z.gtb_spec (now - timestamp e) TILE_CACHE_TTL) as [Hold|Hfresh];
    [discriminate H|].
  cbn [fst] in H. inversion H; subst buf.
  exists (timestamp e). split; [|exact Hfresh].
  pose proof (run_put_by ops [] [] (Forall_nil _)) as Hall.
  rewrite Forall_forall in Hall.
  apply (Hall (key, e)), map_get_In, E.
Qed.

Lemma cache_returns_what_was_put_witness :
  exists t, In (Put t "a" [1]) [Put 0 "a" [1]; Put 1 "b" [2]; Get 2 "a"]
            /\ 3 - t <= TILE_CACHE_TTL.
Proof.
  apply (cache_returns_what_was_put [Put 0 "a" [1]; Put 1 "b" [2]; Get 2 "a"] 3 "a" [1]).
  reflexivity.
Defined.

(** ** Requests that are not for a tile *)

Lemma tile_flags (pathname_of utf8 : string -> string) (url : string) :
  isPlowTile (request_context pathname_of utf8 url)
  || isDesigTile (request_context pathname_of utf8 url)
  = isTileReq (request_context pathname_of utf8 url).
Proof.
  cbn [request_context isPlowTile isDesigTile isTileReq].
  destruct (Str.includes "highlight" _ && _ && _), (Str.includes "VISITED" _); reflexivity.
Qed.

(** X17. A request that is not for a tile never touches the cache: it always
    goes upstream, and the upstream answer is passed on with its status and
    body, the content type and cache-control defaulting to
    [application/octet-stream] and [no-cache]. *)
Theorem non_tile_requests_pass_through
    (pathname_of utf8 : string -> string)
    (decode : bytes -> option (Z * Z * bytes)) (encode : Z -> Z -> bytes -> option bytes)
    (url : string) (proxyRes : upstream_response) (now now' : Z) (tileCache : Map) :
  isTileReq (request_context pathname_of utf8 url) = false ->
  on_request pathname_of utf8 decode encode url now tileCache
  = (Miss (targetUrl (request_context pathname_of utf8 url)), tileCache) /\
  on_upstream_response decode encode (request_context pathname_of utf8 url)
                       proxyRes now' tileCache
  = (Response (statusCode proxyRes)
              (Some (or_default (upstream_content_type proxyRes) "application/octet-stream"))
              (Some (or_default (upstream_cache_control proxyRes) "no-cache"))
              (upstream_body proxyRes),
     tileCache).
Proof.
  intros H. unfold on_request, on_upstream_response.
  rewrite tile_flags, H. split; reflexivity.
Qed.

Lemma non_tile_requests_pass_through_witness :
  on_request (fun p => p) (fun x => x) raw_decode raw_encode
             "/api/activity?x=1&hide=2" 5 []
  = (Miss (targetUrl (request_context (fun p => p) (fun x => x) "/api/activity?x=1&hide=2")),
     []) /\
  on_upstream_response raw_decode raw_encode
    (request_context (fun p => p) (fun x => x) "/api/activity?x=1&hide=2")
    (Upstream 500 None (Some "") [1; 2]) 6 []
  = (Response 500 (Some "application/octet-stream") (Some "no-cache") [1; 2], []).
Proof.
  apply (non_tile_requests_pass_through (fun p => p) (fun x => x) raw_decode raw_encode
           "/api/activity?x=1&hide=2" (Upstream 500 None (Some "") [1; 2]) 5 6 []).
  reflexivity.
Defined.

(** ** What a tile request is answered with *)

Lemma or_default_image (h : option string) (fallback : string) :
  Str.includes "image" (or_default h EmptyString) = true ->
  or_default h fallback = or_default h EmptyString.
Proof.
  unfold or_default. destruct h as [v|]; [|discriminate].
  destruct (Str.is_empty v); [discriminate | reflexivity].
Qed.

(** X18. A tile request is never answered with a 204 or with anything that
    is not an image: the answer built from the upstream response is either
    the empty 404, when upstream said 204 or sent no image content type, or
    it carries a content type that includes [image], a status other than 204
    and as its body the transformed tile or the upstream bytes. *)
Theorem tile_answers_are_images_or_404
    (pathname_of utf8 : string -> string)
    (decode : bytes -> option (Z * Z * bytes)) (encode : Z -> Z -> bytes -> option bytes)
    (url : string) (proxyRes : upstream_response) (now : Z) (tileCache : Map) :
  isTileReq (request_context pathname_of utf8 url) = true ->
  let r := fst (on_upstream_response decode encode (request_context pathname_of utf8 url)
                  proxyRes now tileCache) in
  (r = Response 404 (Some "text/plain") None [] /\
   (statusCode proxyRes = 204 \/
    Str.includes "image" (or_default (upstream_content_type proxyRes) EmptyString) = false))
  \/
  (status r <> 204 /\
   (exists ct, contentType r = Some ct /\ Str.includes "image" ct = true) /\
   (resp_body r = upstream_body proxyRes \/
    transform decode encode (request_context pathname_of utf8 url)
              (upstream_body proxyRes) = Some (resp_body r))).
Proof.
  intros Htile. cbv zeta. unfold on_upstream_response. rewrite tile_flags, Htile.
  cbn [andb].
  destruct (Z.eqb_spec (statusCode proxyRes) 204) as [E204|N204]; cbn [orb].
  { left. split; [reflexivity | left; exact E204]. }
  destruct (Str.includes "image" (or_default (upstream_content_type proxyRes) EmptyString))
    eqn:Himg; cbn [negb].
  2:{ left. split; [reflexivity | right; reflexivity]. }
  right.
  destruct (Z.eqb_spec (statusCode proxyRes) 200) as [E200|N200].
  - destruct (transform _ _ _ _) as [outputBuf|] eqn:Et;
      cbn [fst status contentType resp_body].
    + split; [discriminate|]. split; [|right; reflexivity].
      eexists. split; reflexivity.
    + split; [discriminate|]. split; [|left; reflexivity].
      eexists. split; [reflexivity|].
      rewrite or_default_image by exact Himg. exact Himg.
  - cbn [fst status contentType resp_body].
    split; [exact N204|]. split; [|left; reflexivity].
    eexists. split; [reflexivity|].
    rewrite or_default_image by exact Himg. exact Himg.
Qed.

Lemma tile_answers_are_images_or_404_witness :
  (fst (on_upstream_response raw_decode raw_encode
          (request_context (fun p => p) (fun x => x) "/api/highlight?layerName=VISITED")
          (Upstream 500 (Some "image/png") None [1]) 5 [])
   = Response 404 (Some "text/plain") None [] /\
   (500 = 204 \/ Str.includes "image" (or_default (Some "image/png") EmptyString) = false))
  \/
  (status (fst (on_upstream_response raw_decode raw_encode
                  (request_context (fun p => p) (fun x => x)
                                   "/api/highlight?layerName=VISITED")
                  (Upstream 500 (Some "image/png") None [1]) 5 [])) <> 204 /\
   (exists ct,
      contentType (fst (on_upstream_response raw_decode raw_encode
                          (request_context (fun p => p) (fun x => x)
                                           "/api/highlight?layerName=VISITED")
                          (Upstream 500 (Some "image/png") None [1]) 5 [])) = Some ct /\
      Str.includes "image" ct = true) /\
   (resp_body (fst (on_upstream_response raw_decode raw_encode
                      (request_context (fun p => p) (fun x => x)
                                       "/api/highlight?layerName=VISITED")
                      (Upstream 500 (Some "image/png") None [1]) 5 [])) = [1] \/
    transform raw_decode raw_encode
      (request_context (fun p => p) (fun x => x) "/api/highlight?layerName=VISITED") [1]
    = Some (resp_body (fst (on_upstream_response raw_decode raw_encode
                              (request_context (fun p => p) (fun x => x)
                                               "/api/highlight?layerName=VISITED")
                              (Upstream 500 (Some "image/png") None [1]) 5 []))))).
Proof.
  apply (tile_answers_are_images_or_404 (fun p => p) (fun x => x) raw_decode raw_encode
           "/api/highlight?layerName=VISITED" (Upstream 500 (Some "image/png") None [1]) 5 []).
  reflexivity.
Defined.

(** ** A cached tile and the [hide] variants of its URL *)

(** X19. A cached tile serves every [hide] variant of its URL: once the
    upstream answer to a tile request (a 200 with an image content type) has
    ended at time [t0], a request at a time [t1] within the TTL whose URL
    differs at most in its [hide] parameters is answered from the cache with
    status 200, without going upstream; the body is the transform of the
    upstream bytes under the new request's hide-set, or those bytes as they
    are when the transform fails. *)
Theorem cached_tile_serves_every_hide_variant
    (pathname_of utf8 : string -> string)
    (decode : bytes -> option (Z * Z * bytes)) (encode : Z -> Z -> bytes -> option bytes)
    (u1 u2 : string) (proxyRes : upstream_response) (t0 t1 : Z) (tileCache : Map) :
  same_but_hide utf8 u1 u2 ->
  isTileReq (request_context pathname_of utf8 u1) = true ->
  statusCode proxyRes = 200 ->
  Str.includes "image" (or_default (upstream_content_type proxyRes) EmptyString) = true ->
  t1 - t0 <= TILE_CACHE_TTL ->
  exists r,
    fst (on_request pathname_of utf8 decode encode u2 t1
           (snd (on_upstream_response decode encode
                   (request_context pathname_of utf8 u1) proxyRes t0 tileCache)))
    = Hit r /\
    status r = 200 /\
    resp_body r
    = match transform decode encode (request_context pathname_of utf8 u2)
                      (upstream_body proxyRes) with
      | Some outputBuf => outputBuf
      | None => upstream_body proxyRes
      end /\
    resp_body r
    = resp_body (fst (on_upstream_response decode encode
                        (request_context pathname_of utf8 u2) proxyRes t1 tileCache)).
Proof.
  intros Hsame Htile Hstatus Himage Hfresh.
  destruct (request_context_shared pathname_of utf8 u1 u2 Hsame)
    as (Hclean & _ & Hplow & Hdesig).
  pose proof (tile_flags pathname_of utf8 u1) as Hflags. rewrite Htile in Hflags.
  assert (Hc : snd (on_upstream_response decode encode
                      (request_context pathname_of utf8 u1) proxyRes t0 tileCache)
               = setCachedTile t0 (cleanUrl (request_context pathname_of utf8 u1))
                               (upstream_body proxyRes) tileCache).
  { unfold on_upstream_response.
    rewrite Htile, Hflags, Hstatus, Himage. cbn [negb orb andb Z.eqb Pos.eqb].
    destruct (transform _ _ _ _); reflexivity. }
  rewrite Hc. unfold on_request.
  rewrite <- Hplow, <- Hdesig, <- Hclean, Hflags.
  unfold getCachedTile, setCachedTile.
  rewrite map_get_set_same. cbn [timestamp buffer].
  destruct (Z.gtb_spec (t1 - t0) TILE_CACHE_TTL); [lia|].
  assert (Hmiss : resp_body (fst (on_upstream_response decode encode
                        (request_context pathname_of utf8 u2) proxyRes t1 tileCache))
                  = match transform decode encode (request_context pathname_of utf8 u2)
                                    (upstream_body proxyRes) with
                    | Some outputBuf => outputBuf
                    | None => upstream_body proxyRes
                    end).
  { pose proof (tile_flags pathname_of utf8 u2) as Hflags2.
    rewrite <- Hplow, <- Hdesig, Hflags in Hflags2.
    unfold on_upstream_response.
    rewrite <- Hflags2, <- Hplow, <- Hdesig, Hflags, Hstatus, Himage.
    cbn [negb orb andb Z.eqb Pos.eqb].
    destruct (transform _ _ _ _); reflexivity. }
  rewrite Hmiss.
  destruct (transform decode encode (request_context pathname_of utf8 u2)
                      (upstream_body proxyRes));
    eexists; repeat split.
Qed.

Lemma cached_tile_serves_every_hide_variant_witness :
  exists r,
    fst (on_request (fun p => p) (fun x => x) raw_decode raw_encode
           "/api/highlight?layerName=VISITED&hide=0" 2000
           (snd (on_upstream_response raw_decode raw_encode
                   (request_context (fun p => p) (fun x => x)
                                    "/api/highlight?layerName=VISITED")
                   (Upstream 200 (Some "image/png") None [0; 128; 0; 255]) 1000 [])))
    = Hit r /\
    status r = 200 /\
    resp_body r
    = match transform raw_decode raw_encode
              (request_context (fun p => p) (fun x => x)
                               "/api/highlight?layerName=VISITED&hide=0")
              [0; 128; 0; 255] with
      | Some outputBuf => outputBuf
      | None => [0; 128; 0; 255]
      end /\
    resp_body r
    = resp_body (fst (on_upstream_response raw_decode raw_encode
                        (request_context (fun p => p) (fun x => x)
                                         "/api/highlight?layerName=VISITED&hide=0")
                        (Upstream 200 (Some "image/png") None [0; 128; 0; 255]) 2000 [])).
Proof.
  apply (cached_tile_serves_every_hide_variant (fun p => p) (fun x => x)
           raw_decode raw_encode
           "/api/highlight?layerName=VISITED" "/api/highlight?layerName=VISITED&hide=0"
           (Upstream 200 (Some "image/png") None [0; 128; 0; 255]) 1000 2000 []).
  - split; reflexivity.
  - reflexivity.
  - reflexivity.
  - reflexivity.
  - unfold TILE_CACHE_TTL. lia.
Defined.

(** ** The cache over a history of requests and answers *)

Lemma on_request_cache (pathname_of utf8 : string -> string)
    (decode : bytes -> option (Z * Z * bytes)) (encode : Z -> Z -> bytes -> option bytes)
    (url : string) (now : Z) (c : Map) :
  snd (on_request pathname_of utf8 decode encode url now c) = c \/
  snd (on_request pathname_of utf8 decode encode url now c)
  = snd (getCachedTile now (cleanUrl (request_context pathname_of utf8 url)) c).
Proof.
  unfold on_request.
  destruct (isPlowTile _ || isDesigTile _); [right | left; reflexivity].
  destruct (getCachedTile now _ c) as [[rawCached|] c']; [|reflexivity].
  destruct (transform _ _ _ _); reflexivity.
Qed.

Lemma on_upstream_response_cache (pathname_of utf8 : string -> string)
    (decode : bytes -> option (Z * Z * bytes)) (encode : Z -> Z -> bytes -> option bytes)
    (url : string) (proxyRes : upstream_response) (now : Z) (c : Map) :
  snd (on_upstream_response decode encode (request_context pathname_of utf8 url)
         proxyRes now c) = c \/
  (snd (on_upstream_response decode encode (request_context pathname_of utf8 url)
          proxyRes now c)
   = setCachedTile now (cleanUrl (request_context pathname_of utf8 url))
                   (upstream_body proxyRes) c /\
   statusCode proxyRes = 200 /\
   Str.includes "image" (or_default (upstream_content_type proxyRes) EmptyString) = true /\
   isTileReq (request_context pathname_of utf8 url) = true).
Proof.
  unfold on_upstream_response. rewrite tile_flags.
  destruct (isTileReq (request_context pathname_of utf8 url)); cbn [andb];
    [|left; reflexivity].
  destruct (Z.eqb_spec (statusCode proxyRes) 204) as [E204|N204]; cbn [orb];
    [left; reflexivity|].
  destruct (Str.includes "image" _) eqn:Himg; cbn [negb]; [|left; reflexivity].
  destruct (Z.eqb_spec (statusCode proxyRes) 200) as [E200|N200]; [|left; reflexivity].
  right. destruct (transform _ _ _ _); cbn [snd]; auto.
Qed.

Lemma serve_raw_tiles (pathname_of utf8 : string -> string)
    (decode : bytes -> option (Z * Z * bytes)) (encode : Z -> Z -> bytes -> option bytes)
    (evs : list event) :
  forall (pre : list event) (c : Map),
    Forall (raw_tile_of pathname_of utf8 pre) c ->
    Forall (raw_tile_of pathname_of utf8 (pre ++ evs)%list)
           (fold_left (handle pathname_of utf8 decode encode) evs c).
Proof.
  induction evs as [|ev evs IH]; intros pre c H.
  - rewrite app_nil_r. exact H.
  - cbn [fold_left].
    replace (pre ++ ev :: evs)%list with ((pre ++ [ev]) ++ evs)%list
      by (rewrite <- app_assoc; reflexivity).
    apply IH.
    assert (Hw : Forall (raw_tile_of pathname_of utf8 (pre ++ [ev])%list) c).
    { revert H. apply Forall_impl. intros kv (url & proxyRes & Hin & Hrest).
      exists url, proxyRes. split; [apply in_or_app; left; exact Hin | exact Hrest]. }
    destruct ev as [url now|url proxyRes now]; cbn [handle].
    + destruct (on_request_cache pathname_of utf8 decode encode url now c) as [E|E];
        rewrite E; [exact Hw | apply Forall_getCachedTile, Hw].
    + destruct (on_upstream_response_cache pathname_of utf8 decode encode url proxyRes now c)
        as [E|(E & H200 & Himg & Htile)];
        rewrite E; [exact Hw|].
      apply Forall_setCachedTile; [|exact Hw].
      exists url, proxyRes. cbn [fst snd timestamp buffer].
      split; [apply in_or_app; right; left; reflexivity|]. auto.
Qed.

Lemma serve_inv (pathname_of utf8 : string -> string)
    (decode : bytes -> option (Z * Z * bytes)) (encode : Z -> Z -> bytes -> option bytes)
    (evs : list event) :
  forall c, cache_inv c ->
            cache_inv (fold_left (handle pathname_of utf8 decode encode) evs c).
Proof.
  induction evs as [|ev evs IH]; intros c H; [exact H|].
  cbn [fold_left]. apply IH.
  destruct ev as [url now|url proxyRes now]; cbn [handle].
  - destruct (on_request_cache pathname_of utf8 decode encode url now c) as [E|E];
      rewrite E; [exact H | apply getCachedTile_inv, H].
  - destruct (on_upstream_response_cache pathname_of utf8 decode encode url proxyRes now c)
      as [E|(E & _)];
      rewrite E; [exact H | apply setCachedTile_inv, H].
Qed.

(** X20. Whatever requests and upstream answers the server has handled, its
    cache holds at most 2000 tiles under distinct keys, and every cached
    entry is the unprocessed body of an upstream answer that was a 200 with
    an image content type to a tile request, stored under that request's URL
    without [hide] and stamped with the time the answer ended. *)
Theorem handler_cache_holds_raw_tiles
    (pathname_of utf8 : string -> string)
    (decode : bytes -> option (Z * Z * bytes)) (encode : Z -> Z -> bytes -> option bytes)
    (evs : list event) :
  NoDup (keys (serve pathname_of utf8 decode encode evs)) /\
  (length (serve pathname_of utf8 decode encode evs) <= 2000)%nat /\
  forall key e,
    map_get key (serve pathname_of utf8 decode encode evs) = Some e ->
    exists url proxyRes,
      In (Answer url proxyRes (timestamp e)) evs /\
      key = cleanUrl (request_context pathname_of utf8 url) /\
      buffer e = upstream_body proxyRes /\
      statusCode proxyRes = 200 /\
      Str.includes "image" (or_default (upstream_content_type proxyRes) EmptyString) = true /\
      isTileReq (request_context pathname_of utf8 url) = true.
Proof.
  assert (Hinv : cache_inv (serve pathname_of utf8 decode encode evs)).
  { apply serve_inv. split; [constructor | cbn; lia]. }
  destruct Hinv as [Hnd Hlen].
  split; [exact Hnd|]. split; [exact Hlen|].
  intros key e Hget.
  pose proof (serve_raw_tiles pathname_of utf8 decode encode evs [] [] (Forall_nil _))
    as Hall.
  rewrite Forall_forall in Hall.
  apply (Hall (key, e)), map_get_In, Hget.
Qed.

(** ** The earlier revision of the handler *)

(** X21. The earlier revision cached the processed tile: when the upstream
    answer to a plow-tile request (a 200 with an image content type) was
    recoloured, the recoloured bytes were sent and cached under the request
    URL, and a request for the same URL within the TTL is answered from the
    cache with exactly those bytes, without decoding again; when recolouring
    failed the original bytes were forwarded and nothing was cached. *)
Theorem earlier_handler_caches_processed_tiles
    (decode : bytes -> option (Z * Z * bytes)) (encode : Z -> Z -> bytes -> option bytes)
    (url : string) (proxyRes : upstream_response) (t0 t1 : Z) (tileCache : Map) :
  Earlier.isPlowTile (Earlier.request_context url) = true ->
  statusCode proxyRes = 200 ->
  Str.includes "image" (or_default (upstream_content_type proxyRes) EmptyString) = true ->
  t1 - t0 <= TILE_CACHE_TTL ->
  match Earlier.remapTile decode encode (upstream_body proxyRes) with
  | Some outputBuf =>
      resp_body (fst (Earlier.on_upstream_response decode encode url proxyRes t0 tileCache))
      = outputBuf /\
      fst (Earlier.on_request url t1
             (snd (Earlier.on_upstream_response decode encode url proxyRes t0 tileCache)))
      = Hit (Response 200 (Some "image/png") (Some "public, max-age=300") outputBuf)
  | None =>
      Earlier.on_upstream_response decode encode url proxyRes t0 tileCache
      = (Response 200 (Some (or_default (upstream_content_type proxyRes) "image/png"))
                  (Some (or_default (upstream_cache_control proxyRes) "no-cache"))
                  (upstream_body proxyRes),
         tileCache)
  end.
Proof.
  intros Hplow Hstatus Himage Hfresh.
  assert (Htile : Earlier.isTileReq (Earlier.request_context url) = true).
  { cbn [Earlier.request_context Earlier.isPlowTile Earlier.isTileReq] in *.
    apply andb_true_iff in Hplow. tauto. }
  unfold Earlier.on_upstream_response, Earlier.on_request.
  rewrite Hplow, Htile, Hstatus, Himage.
  cbn [negb orb andb Z.eqb Pos.eqb].
  destruct (Earlier.remapTile decode encode (upstream_body proxyRes)) as [outputBuf|];
    [|reflexivity].
  cbn [fst snd resp_body]. split; [reflexivity|].
  unfold getCachedTile, setCachedTile.
  rewrite map_get_set_same. cbn [timestamp buffer].
  destruct (Z.gtb_spec (t1 - t0) TILE_CACHE_TTL); [lia | reflexivity].
Qed.

Lemma earlier_handler_caches_processed_tiles_witness :
  resp_body (fst (Earlier.on_upstream_response raw_decode raw_encode
                    "/api/highlight?layerName=VISITED"
                    (Upstream 200 (Some "image/png") None [0; 128; 0; 255]) 1000 []))
  = [52; 168; 83; 255] /\
  fst (Earlier.on_request "/api/highlight?layerName=VISITED" 2000
         (snd (Earlier.on_upstream_response raw_decode raw_encode
                 "/api/highlight?layerName=VISITED"
                 (Upstream 200 (Some "image/png") None [0; 128; 0; 255]) 1000 [])))
  = Hit (Response 200 (Some "image/png") (Some "public, max-age=300") [52; 168; 83; 255]).
Proof.
  apply (earlier_handler_caches_processed_tiles raw_decode raw_encode
           "/api/highlight?layerName=VISITED"
           (Upstream 200 (Some "image/png") None [0; 128; 0; 255]) 1000 2000 []).
  - reflexivity.
  - reflexivity.
  - reflexivity.
  - unfold TILE_CACHE_TTL. lia.
Defined.

(** ** The injected token *)

Lemma find_first_none (pat s : string) :
  Str.includes pat s = false -> find_first pat s = None.
Proof.
  induction s as [|c s IH]; cbn [Str.includes find_first];
    destruct (Str.starts_with pat _); try discriminate; [reflexivity|].
  intros H. rewrite (IH H). reflexivity.
Qed.

Lemma GetSubstitution_plain (matched before after template : string) :
  all_chars (is_not "$") template = true ->
  GetSubstitution matched before after template = template.
Proof.
  induction template as [|c tl IH]; [reflexivity|].
  cbn [all_chars GetSubstitution]. intros H.
  apply andb_true_iff in H. destruct H as [Hc Htl].
  unfold is_not in Hc. rewrite Hc, (IH Htl). reflexivity.
Qed.

(** No occurrence of [</head>] starts in [before] and ends in a [</head>]
    that follows it: the pattern does not overlap itself. *)
Lemma head_not_straddling (c : ascii) (before after : string) :
  Str.starts_with "</head>" (String c before) = None ->
  Str.starts_with "</head>" (String c before ++ "</head>" ++ after) = None.
Proof.
  intros H.
  destruct before as [|c2 [|c3 [|c4 [|c5 [|c6 [|c7 rest]]]]]];
    cbn [String.append Str.starts_with] in *;
    repeat match goal with
           | |- context [Ascii.eqb ?a ?b] =>
               destruct (Ascii.eqb_spec a b); try subst; try reflexivity; try discriminate
           | H : context [Ascii.eqb ?a ?b] |- _ =>
               destruct (Ascii.eqb_spec a b); try subst; try reflexivity; try discriminate
           end.
Qed.

Lemma find_first_app (before after : string) :
  Str.includes "</head>" before = false ->
  find_first "</head>" (before ++ "</head>" ++ after) = Some (before, after).
Proof.
  induction before as [|c before IH]; intros H.
  - reflexivity.
  - assert (Hs : Str.starts_with "</head>" (String c before) = None).
    { cbn [Str.includes] in H. destruct (Str.starts_with "</head>" (String c before));
        [discriminate | reflexivity]. }
    assert (Hi : Str.includes "</head>" before = false).
    { cbn [Str.includes] in H. rewrite Hs in H. exact H. }
    pose proof (head_not_straddling c before after Hs) as Hn.
    change (String c before ++ "</head>" ++ after)
      with (String c (before ++ "</head>" ++ after)) in *.
    cbn [find_first]. rewrite Hn, (IH Hi). reflexivity.
Qed.

(** X22. With a token that is set and holds no dollar sign, an HTML file is
    sent with the token script inserted just before its first [</head>] and
    nothing else changed (a later [</head>] stays as it is); an HTML file
    without [</head>] is sent as decoded; and a file of another extension, or
    any file when no token is set, is sent byte for byte. *)
Theorem token_is_injected_before_first_head
    (utf8 : string -> string) (MAPBOX_TOKEN data before after : string) :
  MAPBOX_TOKEN <> EmptyString ->
  all_chars (is_not "$") MAPBOX_TOKEN = true ->
  utf8 data = before ++ "</head>" ++ after ->
  Str.includes "</head>" before = false ->
  file_body utf8 MAPBOX_TOKEN ".html" data
  = before ++ "<script>window.__MAPBOX_TOKEN__='" ++ MAPBOX_TOKEN
           ++ "';</script></head>" ++ after /\
  (forall data',
     Str.includes "</head>" (utf8 data') = false ->
     file_body utf8 MAPBOX_TOKEN ".html" data' = utf8 data') /\
  (forall ext data', ext <> ".html" -> file_body utf8 MAPBOX_TOKEN ext data' = data') /\
  (forall ext data', file_body utf8 EmptyString ext data' = data').
Proof.
  intros Hset Hplain Hdata Hfirst. unfold file_body.
  assert (E : Str.is_empty MAPBOX_TOKEN = false)
    by (destruct MAPBOX_TOKEN; [congruence | reflexivity]).
  rewrite E. cbn [String.eqb Ascii.eqb Bool.eqb andb negb]. unfold replace.
  split; [|split; [|split]].
  - rewrite Hdata, (find_first_app before after Hfirst).
    rewrite GetSubstitution_plain.
    + unfold token_script. rewrite !append_assoc. reflexivity.
    + unfold token_script. rewrite !all_chars_app, Hplain. reflexivity.
  - intros data' H. rewrite (find_first_none _ _ H). reflexivity.
  - intros ext data' Hext.
    destruct (String.eqb_spec ext ".html"); [contradiction | reflexivity].
  - intros ext data'. cbn [Str.is_empty negb]. rewrite andb_false_r. reflexivity.
Qed.

Lemma token_is_injected_before_first_head_witness :
  file_body (fun x => x) "pk.abc" ".html" "<head></head><body></head>"
  = "<head>" ++ "<script>window.__MAPBOX_TOKEN__='" ++ "pk.abc"
    ++ "';</script></head>" ++ "<body></head>".
Proof.
  apply (token_is_injected_before_first_head (fun x => x) "pk.abc"
           "<head></head><body></head>" "<head>" "<body></head>").
  - discriminate.
  - reflexivity.
  - reflexivity.
  - reflexivity.
Defined.

(** * Part VII: worked examples *)

(** An exact source colour is replaced, a blended one interpolated, a
    transparent pixel and a far colour kept, and a trailing partial pixel
    (no alpha byte) treated as opaque. *)
Example remapPixels_example :
  remapPixels [0; 128; 0; 255;  0; 0; 0; 0;  10; 120; 5; 255;  255; 255; 255; 255;  1; 2; 3]
              None
  = [52; 168; 83; 255;  0; 0; 0; 0;  56; 155; 78; 255;  255; 255; 255; 255;  5; 6; 7].
Proof. vm_compute. reflexivity. Qed.

Example filterDesigPixels_example :
  filterDesigPixels [0xbf; 0x40; 0x2e; 255;  0; 0; 0; 0;  0x11; 0x41; 0xaf; 9] [1%float]
  = [0xbf; 0x40; 0x2e; 255;  0; 0; 0; 0;  0x11; 0x41; 0xaf; 0].
Proof. vm_compute. reflexivity. Qed.

Example Number_examples :
  map Num.Number [""; " "; "abc"; "1"; " 2 "; "0x10"; "1e0"; "12px"; "."; "-"]
  = [0%float; 0%float; PrimFloat.nan; 1%float; 2%float; 16%float; 1%float;
     PrimFloat.nan; PrimFloat.nan; PrimFloat.nan].
Proof. vm_compute. reflexivity. Qed.

Example parse_hide_examples :
  parse_hide "" = None /\
  parse_hide "0,2" = Some [0%float; 2%float] /\
  parse_hide "1,,abc,1.0" = Some [1%float; 0%float; PrimFloat.nan] /\
  parse_hide "," = Some [0%float].
Proof. vm_compute. repeat split. Qed.

(** A plow tile that is not cached: upstream is asked for the URL without
    [hide]; its answer (an exact green pixel and a transparent one) is cached
    raw and served recoloured. *)
Example miss_then_recolor :
  on_request (fun p => p) (fun x => x) raw_decode raw_encode
             "/api/highlight?layerName=VISITED&z=15" 1000 []
  = (Miss "https://plownyc.cityofnewyork.us/mappingapi/api/highlight?layerName=VISITED&z=15",
     []) /\
  on_upstream_response raw_decode raw_encode
    (request_context (fun p => p) (fun x => x) "/api/highlight?layerName=VISITED&z=15")
    (Upstream 200 (Some "image/png") None [0; 128; 0; 255; 9; 9; 9; 0]) 1000 []
  = (Response 200 (Some "image/png") (Some "public, max-age=300")
              [52; 168; 83; 255; 9; 9; 9; 0],
     [("/api/highlight?layerName=VISITED&z=15",
       CacheEntry [0; 128; 0; 255; 9; 9; 9; 0] 1000)]).
Proof. vm_compute. split; reflexivity. Qed.

(** The same tile asked again with [hide=0]: served from the cache, the
    green pixel now transparent. *)
Example hit_with_hide :
  on_request (fun p => p) (fun x => x) raw_decode raw_encode
             "/api/highlight?layerName=VISITED&z=15&hide=0" 2000
             [("/api/highlight?layerName=VISITED&z=15",
               CacheEntry [0; 128; 0; 255; 9; 9; 9; 0] 1000)]
  = (Hit (Response 200 (Some "image/png") (Some "public, max-age=300")
                   [0; 128; 0; 0; 9; 9; 9; 0]),
     [("/api/highlight?layerName=VISITED&z=15",
       CacheEntry [0; 128; 0; 255; 9; 9; 9; 0] 1000)]).
Proof. vm_compute. reflexivity. Qed.

(** Upstream answers 204 for a tile: the client gets an empty 404. *)
Example no_content_is_404 :
  fst (on_upstream_response raw_decode raw_encode
         (request_context (fun p => p) (fun x => x) "/api/highlight?layerName=VISITED&z=15")
         (Upstream 204 None None []) 1000 [])
  = Response 404 (Some "text/plain") None [].
Proof. vm_compute. reflexivity. Qed.
